(** * demo-cosmos-api: bounded trace collections behind a FastAPI service

    A shallow embedding of [src/main.py].  The service keeps four MongoDB
    collections (snapshots, steps, transactions, logs).  Every POST endpoint
    evicts the oldest documents when the collection is full and then inserts;
    the GET endpoints look documents up and join steps to transactions; the
    DELETE endpoint removes a number of documents from a named collection.

    The database driver is not part of the repository.  Section [Pymongo]
    models the handful of driver calls the endpoints make, following the
    documented behaviour of the driver; the endpoints themselves are
    transcribed from the source, statement by statement, over an explicit
    database state.  Requests are run one at a time.

    Two things the driver decides are kept open, as part of the state, so
    that the theorems hold whatever they are: the object ids it generates
    (which need not grow) and what it refuses to store beyond the documents
    BSON cannot encode. *)

From Stdlib Require Import List ZArith NArith String Ascii Bool Lia.
From Stdlib Require Import DecimalString HexadecimalString.
From Stdlib Require Import Sorted Permutation.
Import ListNotations.

Local Open Scope string_scope.
Local Open Scope Z_scope.

(** ** BSON values and Python dictionaries *)

(** [bson.ObjectId]: a 12-byte identifier (seconds, a per-process random
    part, a three-byte counter that wraps), read as a number.  The driver
    creates one per inserted document. *)
Definition ObjectId := N.

Set Warnings "-register-all".

(** What a Python dictionary returned by the driver may hold: the JSON
    types plus [ObjectId].  A dictionary keeps its keys in insertion
    order. *)
Inductive value : Type :=
| VNone
| VBool (b : bool)
| VInt (z : Z)
| VStr (s : string)
| VOid (o : ObjectId)
| VList (l : list value)
| VDict (d : list (string * value)).

Definition dict := list (string * value).

(** [d[k]] as a lookup: the value of the first binding of [k]. *)
Fixpoint dict_get (d : dict) (k : string) : option value :=
  match d with
  | [] => None
  | (k', v) :: d' => if String.eqb k' k then Some v else dict_get d' k
  end.

(** [d[k] = v]: an existing key keeps its position, a new key goes last. *)
Fixpoint dict_set (d : dict) (k : string) (v : value) : dict :=
  match d with
  | [] => [(k, v)]
  | (k', v') :: d' =>
      if String.eqb k' k then (k', v) :: d' else (k', v') :: dict_set d' k v
  end.

(** [str(ObjectId)]: 24 lower-case hexadecimal digits. *)
Definition ObjectId_str (o : ObjectId) : string :=
  let h := HexadecimalString.NilEmpty.string_of_uint (N.to_hex_uint o) in
  let pad := Nat.sub 24 (String.length h) in
  String.concat "" (repeat "0" pad) ++ h.

(** [mongo_to_dict], lines 78-85: object ids become strings, dictionaries
    and lists are rebuilt with their members converted, everything else is
    returned as it is. *)
Fixpoint mongo_to_dict (mongo_obj : value) : value :=
  match mongo_obj with
  | VOid o => VStr (ObjectId_str o)
  | VDict d =>
      VDict (map (fun kv => match kv with (k, v) => (k, mongo_to_dict v) end) d)
  | VList l => VList (map mongo_to_dict l)
  | _ => mongo_obj
  end.

(** ** Pydantic models, lines 39-75 *)

Record Node := { Node_type : string; Node_name : string }.

(** Of the six annotations in [Message] only [payload] and [topic] are
    fields: pydantic leaves names with a leading underscore out of the
    model, so they are neither validated nor part of [.dict()]. *)
Record Message := { payload : value; topic : string }.

Record Snapshot := {
  Snapshot_id : string;
  Snapshot_transaction : string;
  Snapshot_node : Node;
  Snapshot_createdAt : Z;
  msg : Message
}.

Record Step := {
  Step_id : string;
  Step_topic : string;
  Step_node : Node;
  Step_transaction : string;
  Step_createdAt : Z;
  snapshotId : string
}.

Record Log := { Log_id : string }.

Record Transaction := {
  Transaction_id : string;
  start : Z;
  end_ : Z;
  receiver : list string;
  sender : string;
  logs : list Log
}.

(** [.dict()] of each model: the fields in declaration order, nested
    models converted too. *)
Definition Node_dict (n : Node) : dict :=
  [("type", VStr (Node_type n)); ("name", VStr (Node_name n))].

Definition Message_dict (m : Message) : dict :=
  [("payload", payload m); ("topic", VStr (topic m))].

Definition Snapshot_dict (s : Snapshot) : dict :=
  [("id", VStr (Snapshot_id s));
   ("transaction", VStr (Snapshot_transaction s));
   ("node", VDict (Node_dict (Snapshot_node s)));
   ("createdAt", VInt (Snapshot_createdAt s));
   ("msg", VDict (Message_dict (msg s)))].

Definition Step_dict (s : Step) : dict :=
  [("id", VStr (Step_id s));
   ("topic", VStr (Step_topic s));
   ("node", VDict (Node_dict (Step_node s)));
   ("transaction", VStr (Step_transaction s));
   ("createdAt", VInt (Step_createdAt s));
   ("snapshotId", VStr (snapshotId s))].

Definition Log_dict (l : Log) : dict := [("id", VStr (Log_id l))].

Definition Transaction_dict (t : Transaction) : dict :=
  [("id", VStr (Transaction_id t));
   ("start", VInt (start t));
   ("end", VInt (end_ t));
   ("receiver", VList (map VStr (receiver t)));
   ("sender", VStr (sender t));
   ("logs", VList (map (fun l => VDict (Log_dict l)) (logs t)))].


(** ** The driver: collections, cursors and the calls made on them *)

(** Exceptions that are not HTTP errors: [ValueError] is what the driver
    raises for a negative [skip], [OverflowError] for an integer BSON
    cannot hold, [InvalidDocument] for a key BSON cannot hold,
    [DuplicateKeyError] for an [_id] that the collection already has. *)
Inductive exn : Type :=
| ValueError (message : string)
| OverflowError
| InvalidDocument
| DuplicateKeyError.

(** BSON integers have at most 64 bits. *)
Definition int64 (z : Z) : bool := (- 2 ^ 63 <=? z) && (z <? 2 ^ 63).

(** BSON keys end at the first NUL character, so a key cannot hold one. *)
Fixpoint has_nul (s : string) : bool :=
  match s with
  | EmptyString => false
  | String c s' => Ascii.eqb c "000"%char || has_nul s'
  end.

(** What encoding a value to BSON raises, if anything: the first integer
    out of range or key with a NUL, in document order. *)
Fixpoint bson_error (v : value) : option exn :=
  match v with
  | VInt z => if int64 z then None else Some OverflowError
  | VList l =>
      (fix members (l : list value) : option exn :=
         match l with
         | [] => None
         | v :: l' =>
             match bson_error v with
             | Some e => Some e
             | None => members l'
             end
         end) l
  | VDict d =>
      (fix members (d : list (string * value)) : option exn :=
         match d with
         | [] => None
         | (k, v) :: d' =>
             if has_nul k then Some InvalidDocument
             else match bson_error v with
                  | Some e => Some e
                  | None => members d'
                  end
         end) d
  | _ => None
  end.

Section Pymongo.

Context {A : Type}.

(** A stored document: the body given to [insert_one] together with the
    [_id] the driver added to it. *)
Record document := { _id : ObjectId; body : A }.

(** A collection lists its documents in natural order, which is the
    order of insertion; deleting a document does not move the others. *)
Definition collection := list document.

(** [collection.count_documents({})] *)
Definition count_documents (c : collection) : Z := Z.of_nat (List.length c).

(** [collection.find()] and [collection.find({field: v})]: the matching
    documents in natural order. *)
Definition find (c : collection) : list document := c.

Definition find_where (flt : document -> bool) (c : collection)
  : list document := filter flt c.

(** [collection.find_one({field: v})]: the first match, or [None]. *)
Definition find_one (flt : document -> bool) (c : collection)
  : option document := hd_error (find_where flt c).

(** [cursor.sort(field, 1)]: ascending on an integer key; documents with
    equal keys keep their natural order. *)
Fixpoint sort_insert (key : document -> Z) (x : document)
         (l : list document) : list document :=
  match l with
  | [] => [x]
  | y :: l' =>
      if key x <=? key y then x :: l else y :: sort_insert key x l'
  end.

Definition sort (key : document -> Z) (cur : list document)
  : list document := fold_right (sort_insert key) [] cur.

(** The server's default size of a first batch, in documents. *)
Definition first_batch : nat := 101.

(** [cursor.limit(n)], as seen when the cursor is read: [0] means no
    limit and is not sent; otherwise [|n|] is sent, which has to fit a
    BSON integer; a negative [n] asks for a single batch of at most [|n|]
    documents. *)
Definition limit (n : Z) (cur : list document) : exn + list document :=
  if n =? 0 then inr cur
  else if negb (int64 (Z.abs n)) then inl OverflowError
  else if n <? 0 then inr (firstn (Nat.min (Z.abs_nat n) first_batch) cur)
  else inr (firstn (Z.to_nat n) cur).

(** [cursor.skip(n)]: raises [ValueError] at once when [n] is negative;
    the number has to fit a BSON integer when the cursor is read. *)
Definition skip (n : Z) (cur : list document) : exn + list document :=
  if n <? 0 then inl (ValueError "skip must be >= 0")
  else if negb (int64 n) then inl OverflowError
  else inr (skipn (Z.to_nat n) cur).

(** [collection.delete_many({"_id": {"$in": ids}})]: every document whose
    [_id] is listed goes; the result carries [deleted_count]. *)
Definition id_in (ids : list ObjectId) (d : document) : bool :=
  existsb (N.eqb (_id d)) ids.

Definition delete_many (ids : list ObjectId) (c : collection)
  : collection * Z :=
  let kept := filter (fun d => negb (id_in ids d)) c in
  (kept, Z.of_nat (List.length c - List.length kept)%nat).

(** [collection.insert_one(doc)] with the [_id] the driver generated for
    it.  The document is encoded first, which fails for what BSON cannot
    hold; [refusal] is whatever else makes the driver or the server refuse
    the document (its size, its depth); the server refuses an [_id] the
    collection already has.  Otherwise the document goes last. *)
Definition insert_one (to_dict : A -> dict) (refusal : dict -> option exn)
           (doc : A) (oid : ObjectId) (c : collection) : exn + collection :=
  match bson_error (VDict (to_dict doc)) with
  | Some e => inl e
  | None =>
      match refusal (to_dict doc) with
      | Some e => inl e
      | None =>
          if existsb (N.eqb oid) (map _id c) then inl DuplicateKeyError
          else inr (c ++ [{| _id := oid; body := doc |}])%list
      end
  end.

End Pymongo.

Arguments document : clear implicits.
Arguments collection : clear implicits.

(** A document as [find] hands it to Python: [_id] first, then the stored
    fields. *)
Definition Snapshot_doc (e : document Snapshot) : dict :=
  ("_id", VOid (_id e)) :: Snapshot_dict (body e).

Definition Step_doc (e : document Step) : dict :=
  ("_id", VOid (_id e)) :: Step_dict (body e).

Definition Transaction_doc (e : document Transaction) : dict :=
  ("_id", VOid (_id e)) :: Transaction_dict (body e).

Definition Log_doc (e : document Log) : dict :=
  ("_id", VOid (_id e)) :: Log_dict (body e).

(** ** The database, lines 28-34 *)

(** The four collections, and the driver's part: the object ids it will
    generate, in the order of its calls, how many it has generated, and
    what it refuses to store. *)
Record DB := {
  snapshot_collection : collection Snapshot;
  step_collection : collection Step;
  transaction_collection : collection Transaction;
  log_collection : collection Log;
  object_ids : nat -> ObjectId;
  drawn : nat;
  refusal : dict -> option exn
}.

Definition with_snapshots (db : DB) (c : collection Snapshot) : DB :=
  {| snapshot_collection := c;
     step_collection := step_collection db;
     transaction_collection := transaction_collection db;
     log_collection := log_collection db;
     object_ids := object_ids db;
     drawn := drawn db;
     refusal := refusal db |}.

Definition with_steps (db : DB) (c : collection Step) : DB :=
  {| snapshot_collection := snapshot_collection db;
     step_collection := c;
     transaction_collection := transaction_collection db;
     log_collection := log_collection db;
     object_ids := object_ids db;
     drawn := drawn db;
     refusal := refusal db |}.

Definition with_transactions (db : DB) (c : collection Transaction) : DB :=
  {| snapshot_collection := snapshot_collection db;
     step_collection := step_collection db;
     transaction_collection := c;
     log_collection := log_collection db;
     object_ids := object_ids db;
     drawn := drawn db;
     refusal := refusal db |}.

Definition with_logs (db : DB) (c : collection Log) : DB :=
  {| snapshot_collection := snapshot_collection db;
     step_collection := step_collection db;
     transaction_collection := transaction_collection db;
     log_collection := c;
     object_ids := object_ids db;
     drawn := drawn db;
     refusal := refusal db |}.

(** The object id the driver generates next. *)
Definition next_oid (db : DB) : ObjectId := object_ids db (drawn db).

(** The driver draws a new [ObjectId]. *)
Definition fresh_oid (db : DB) : ObjectId * DB :=
  (next_oid db,
   {| snapshot_collection := snapshot_collection db;
      step_collection := step_collection db;
      transaction_collection := transaction_collection db;
      log_collection := log_collection db;
      object_ids := object_ids db;
      drawn := S (drawn db);
      refusal := refusal db |}).

(** No document anywhere, with a given driver. *)
Definition empty_db_with (ids : nat -> ObjectId)
           (refuses : dict -> option exn) : DB :=
  {| snapshot_collection := [];
     step_collection := [];
     transaction_collection := [];
     log_collection := [];
     object_ids := ids;
     drawn := 0;
     refusal := refuses |}.

(** The empty database of the examples: ids that count up, and nothing
    refused beyond what BSON cannot encode. *)
Definition empty_db : DB := empty_db_with N.of_nat (fun _ => None).

(** ** Endpoints *)

(** What a handler produces: a value (status 200), an [HTTPException]
    raised by the handler, or another exception that escaped it (which the
    framework turns into a status 500). *)
Inductive response (R : Type) : Type :=
| Ok (r : R)
| HTTPException (status_code : Z) (detail : string)
| Raised (e : exn).

Arguments Ok {R} r.
Arguments HTTPException {R} status_code detail.
Arguments Raised {R} e.

(** Lines 87-97. *)
Definition max_size_transactions_collection : Z := 3.
Definition chunk_size_to_delete_from_transactions_collection : Z := 1.

Definition max_size_steps_collection : Z := 50.
Definition chunk_size_to_delete_from_steps_collection : Z := 1.

Definition max_size_snapshots_collection : Z := 50.
Definition chunk_size_to_delete_from_snapshots_collection : Z := 1.

Definition max_size_log_collection : Z := 50.
Definition chunk_size_to_delete_from_log_collection : Z := 1.

(** [POST /snapshots], lines 100-108.  An exception leaves the handler at
    the statement that raised it, with what was done before it done. *)
Definition create_snapshot (snapshot : Snapshot) (db : DB)
  : DB * response (string * Snapshot) :=
  let snapshot_dict := snapshot in
  let evicting :=
    if count_documents (snapshot_collection db)
       >=? max_size_snapshots_collection
    then
      match limit chunk_size_to_delete_from_snapshots_collection
              (sort (fun entry => Snapshot_createdAt (body entry))
                 (find (snapshot_collection db))) with
      | inl e => inl e
      | inr oldest_snapshots =>
          let ids_to_delete := map _id oldest_snapshots in
          inr (with_snapshots db
                 (fst (delete_many ids_to_delete (snapshot_collection db))))
      end
    else inr db in
  match evicting with
  | inl e => (db, Raised e)
  | inr db =>
      let (oid, db) := fresh_oid db in
      match insert_one Snapshot_dict (refusal db) snapshot_dict oid
              (snapshot_collection db) with
      | inl e => (db, Raised e)
      | inr c => (with_snapshots db c, Ok ("Snapshot saved", snapshot))
      end
  end.

(** [POST /steps], lines 110-118. *)
Definition create_step (step : Step) (db : DB)
  : DB * response (string * Step) :=
  let step_dict := step in
  let evicting :=
    if count_documents (step_collection db) >=? max_size_steps_collection
    then
      match limit chunk_size_to_delete_from_steps_collection
              (sort (fun entry => Step_createdAt (body entry))
                 (find (step_collection db))) with
      | inl e => inl e
      | inr oldest_steps =>
          let ids_to_delete := map _id oldest_steps in
          inr (with_steps db
                 (fst (delete_many ids_to_delete (step_collection db))))
      end
    else inr db in
  match evicting with
  | inl e => (db, Raised e)
  | inr db =>
      let (oid, db) := fresh_oid db in
      match insert_one Step_dict (refusal db) step_dict oid
              (step_collection db) with
      | inl e => (db, Raised e)
      | inr c => (with_steps db c, Ok ("Step saved", step))
      end
  end.

(** [POST /transactions], lines 120-128. *)
Definition create_transaction (transaction : Transaction) (db : DB)
  : DB * response (string * Transaction) :=
  let transaction_dict := transaction in
  let evicting :=
    if count_documents (transaction_collection db)
       >=? max_size_transactions_collection
    then
      match limit chunk_size_to_delete_from_transactions_collection
              (sort (fun entry => start (body entry))
                 (find (transaction_collection db))) with
      | inl e => inl e
      | inr oldest_transactions =>
          let ids_to_delete := map _id oldest_transactions in
          inr (with_transactions db
                 (fst (delete_many ids_to_delete
                         (transaction_collection db))))
      end
    else inr db in
  match evicting with
  | inl e => (db, Raised e)
  | inr db =>
      let (oid, db) := fresh_oid db in
      match insert_one Transaction_dict (refusal db) transaction_dict oid
              (transaction_collection db) with
      | inl e => (db, Raised e)
      | inr c =>
          (with_transactions db c, Ok ("Transaction saved", transaction))
      end
  end.

(** [POST /logs], lines 130-138.  The sort key is [_id] itself. *)
Definition create_log (log : Log) (db : DB) : DB * response (string * Log) :=
  let log_dict := log in
  let evicting :=
    if count_documents (log_collection db) >=? max_size_log_collection
    then
      match limit chunk_size_to_delete_from_log_collection
              (sort (fun entry => Z.of_N (_id entry))
                 (find (log_collection db))) with
      | inl e => inl e
      | inr oldest_logs =>
          let ids_to_delete := map _id oldest_logs in
          inr (with_logs db
                 (fst (delete_many ids_to_delete (log_collection db))))
      end
    else inr db in
  match evicting with
  | inl e => (db, Raised e)
  | inr db =>
      let (oid, db) := fresh_oid db in
      match insert_one Log_dict (refusal db) log_dict oid
              (log_collection db) with
      | inl e => (db, Raised e)
      | inr c => (with_logs db c, Ok ("Log saved", log))
      end
  end.

(** [GET /status], lines 140-142. *)
Definition get_status : response string := Ok "Connected to API".

(** [GET /snapshots], lines 144-147. *)
Definition get_all_snapshots (db : DB) : response (list value) :=
  let snapshots := find (snapshot_collection db) in
  Ok (map (fun snapshot => mongo_to_dict (VDict (Snapshot_doc snapshot)))
        snapshots).

(** [GET /snapshots/{snapshot_id}], lines 149-154. *)
Definition get_snapshot (snapshot_id : string) (db : DB) : response value :=
  match find_one (fun d => Snapshot_id (body d) =? snapshot_id)%string
          (snapshot_collection db) with
  | None => HTTPException 404 "Snapshot not found"
  | Some snapshot => Ok (mongo_to_dict (VDict (Snapshot_doc snapshot)))
  end.

(** The steps of one transaction as the handlers attach them: the filter
    on the steps collection and the conversion of every match (lines
    160-161 and 169-170 are the same two statements). *)
Definition steps_of (transaction_id : string) (db : DB) : list value :=
  let steps :=
    find_where (fun d => Step_transaction (body d) =? transaction_id)%string
      (step_collection db) in
  map (fun step => mongo_to_dict (VDict (Step_doc step))) steps.

(** [GET /transactions], lines 156-162; [count] defaults to 10 and
    [offset] to 0 when the query leaves them out. *)
Definition get_all_transactions (count offset : Z) (db : DB)
  : response (list value) :=
  match skip offset (find (transaction_collection db)) with
  | inl e => Raised e
  | inr cur =>
      match limit count cur with
      | inl e => Raised e
      | inr transactions =>
          let transactions :=
            map (fun transaction =>
                   dict_set (Transaction_doc transaction) "steps"
                     (VList (steps_of (Transaction_id (body transaction)) db)))
              transactions in
          Ok (map (fun transaction => mongo_to_dict (VDict transaction))
                transactions)
      end
  end.

(** [GET /transactions/{transaction_id}], lines 164-171. *)
Definition get_transaction (transaction_id : string) (db : DB)
  : response value :=
  match find_one (fun d => Transaction_id (body d) =? transaction_id)%string
          (transaction_collection db) with
  | None => HTTPException 404 "Transaction not found"
  | Some transaction =>
      let transaction :=
        dict_set (Transaction_doc transaction) "steps"
          (VList (steps_of transaction_id db)) in
      Ok (mongo_to_dict (VDict transaction))
  end.

(** [GET /transactions/{transaction_id}/snapshots], lines 173-178. *)
Definition get_snapshots_for_transaction (transaction_id : string) (db : DB)
  : response (list value) :=
  let snapshots :=
    find_where
      (fun d => Snapshot_transaction (body d) =? transaction_id)%string
      (snapshot_collection db) in
  match snapshots with
  | [] => HTTPException 404 "No snapshots found for this transaction"
  | _ :: _ =>
      Ok (map (fun snapshot => mongo_to_dict (VDict (Snapshot_doc snapshot)))
            snapshots)
  end.

(** [GET /steps/{step_id}], lines 180-185. *)
Definition get_step (step_id : string) (db : DB) : response value :=
  match find_one (fun d => Step_id (body d) =? step_id)%string
          (step_collection db) with
  | None => HTTPException 404 "Step not found"
  | Some step => Ok (mongo_to_dict (VDict (Step_doc step)))
  end.

(** [GET /logs/{log_id}], lines 187-192. *)
Definition get_log (log_id : string) (db : DB) : response value :=
  match find_one (fun d => Log_id (body d) =? log_id)%string
          (log_collection db) with
  | None => HTTPException 404 "Log not found"
  | Some log => Ok (mongo_to_dict (VDict (Log_doc log)))
  end.

(** The handles in the [collections] dictionary of [delete_entries]. *)
Inductive handle : Type := Snapshots | Steps | Transactions | Logs.

Definition collections (collection_name : string) : option handle :=
  if (collection_name =? "snapshots")%string then Some Snapshots
  else if (collection_name =? "steps")%string then Some Steps
  else if (collection_name =? "transactions")%string then Some Transactions
  else if (collection_name =? "logs")%string then Some Logs
  else None.

(** Lines 207-210 on whichever collection was picked; reading the cursor
    may raise, before anything is deleted. *)
Definition delete_first {A : Type} (number_of_entries : Z)
  : collection A -> exn + collection A * Z := fun collection =>
  match limit number_of_entries (find collection) with
  | inl e => inl e
  | inr entries_to_delete =>
      let ids_to_delete := map _id entries_to_delete in
      inr (delete_many ids_to_delete collection)
  end.

(** Python's [str] of an integer, for the f-string of line 211. *)
Definition str (n : Z) : string :=
  DecimalString.NilZero.string_of_int (Z.to_int n).

Definition deleted_message (deleted_count : Z) (collection_name : string)
  : string :=
  str deleted_count ++ " entries deleted from " ++ collection_name
    ++ " collection".

(** [DELETE /delete], lines 194-211. *)
Definition delete_entries (number_of_entries : Z) (collection_name : string)
           (db : DB) : DB * response string :=
  match collections collection_name with
  | None => (db, HTTPException 400 "Invalid collection name")
  | Some collection =>
      let deleting :=
        match collection with
        | Snapshots =>
            match delete_first number_of_entries (snapshot_collection db) with
            | inl e => inl e
            | inr (c, n) => inr (with_snapshots db c, n)
            end
        | Steps =>
            match delete_first number_of_entries (step_collection db) with
            | inl e => inl e
            | inr (c, n) => inr (with_steps db c, n)
            end
        | Transactions =>
            match delete_first number_of_entries
                    (transaction_collection db) with
            | inl e => inl e
            | inr (c, n) => inr (with_transactions db c, n)
            end
        | Logs =>
            match delete_first number_of_entries (log_collection db) with
            | inl e => inl e
            | inr (c, n) => inr (with_logs db c, n)
            end
        end in
      match deleting with
      | inl e => (db, Raised e)
      | inr (db, deleted_count) =>
          (db, Ok (deleted_message deleted_count collection_name))
      end
  end.

(** ** Databases, runs of requests, and what the statements measure *)

(** Pairwise distinct object ids: the unique index every collection has
    on [_id]. *)
Fixpoint distinct (ids : list ObjectId) : bool :=
  match ids with
  | [] => true
  | x :: ids' => negb (existsb (N.eqb x) ids') && distinct ids'
  end.

Definition wf_db (db : DB) : bool :=
  distinct (map _id (snapshot_collection db))
  && distinct (map _id (step_collection db))
  && distinct (map _id (transaction_collection db))
  && distinct (map _id (log_collection db)).

(** Every store at or below its maximum. *)
Definition within_capacity (db : DB) : Prop :=
  count_documents (snapshot_collection db) <= max_size_snapshots_collection
  /\ count_documents (step_collection db) <= max_size_steps_collection
  /\ count_documents (transaction_collection db)
     <= max_size_transactions_collection
  /\ count_documents (log_collection db) <= max_size_log_collection.

(** The four inserts as one request type, and a run of them. *)
Inductive insert_request : Type :=
| PostSnapshot (snapshot : Snapshot)
| PostStep (step : Step)
| PostTransaction (transaction : Transaction)
| PostLog (log : Log).

Definition post (db : DB) (r : insert_request) : DB :=
  match r with
  | PostSnapshot s => fst (create_snapshot s db)
  | PostStep s => fst (create_step s db)
  | PostTransaction t => fst (create_transaction t db)
  | PostLog l => fst (create_log l db)
  end.

Definition post_all (rs : list insert_request) (db : DB) : DB :=
  fold_left post rs db.

(** Did the handler answer with status 200? *)
Definition is_ok {R : Type} (r : response R) : bool :=
  match r with
  | Ok _ => true
  | _ => false
  end.

Definition answered_ok (db : DB) (r : insert_request) : bool :=
  match r with
  | PostSnapshot s => is_ok (snd (create_snapshot s db))
  | PostStep s => is_ok (snd (create_step s db))
  | PostTransaction t => is_ok (snd (create_transaction t db))
  | PostLog l => is_ok (snd (create_log l db))
  end.

(** Every insert of the run was answered with status 200. *)
Fixpoint accepted (rs : list insert_request) (db : DB) : bool :=
  match rs with
  | [] => true
  | r :: rs' => answered_ok db r && accepted rs' (post db r)
  end.

(** The document a handler stored, if its answer says it did. *)
Definition inserted {R A : Type} (r : response R) (doc : document A)
  : list (document A) :=
  if is_ok r then [doc] else [].

(** What the eviction of an insert leaves of a collection: everything
    when there is room, and otherwise everything but the first [chunk]
    documents of the collection sorted on [key]. *)
Definition evict {A : Type} (key : document A -> Z) (cap chunk : Z)
           (c : collection A) : collection A :=
  if count_documents c >=? cap
  then fst (delete_many (map _id (firstn (Z.to_nat chunk) (sort key c))) c)
  else c.

(** The collection after an insert that the driver accepted. *)
Definition capped_insert {A : Type} (key : document A -> Z) (cap chunk : Z)
           (doc : A) (oid : ObjectId) (c : collection A) : collection A :=
  (evict key cap chunk c ++ [{| _id := oid; body := doc |}])%list.

(** [old] splits into a chunk and the rest, nothing in the chunk is newer
    than anything in the rest, and [new] is the rest followed by the
    documents [added]. *)
Definition evicts_oldest {A : Type} (key : document A -> Z) (chunk : Z)
           (old new : collection A) (added : list (document A)) : Prop :=
  exists ev kept : list (document A),
    new = (kept ++ added)%list
    /\ Permutation.Permutation old (ev ++ kept)
    /\ Z.of_nat (List.length ev) = chunk
    /\ forall e r, In e ev -> In r kept -> key e <= key r.


(** An answer of the invalid-argument class: status 400 or 422. *)
Definition invalid_argument {R : Type} (r : response R) : Prop :=
  exists status_code detail,
    r = HTTPException status_code detail
    /\ (status_code = 400 \/ status_code = 422).

(** The order [sort] establishes. *)
Definition key_le {A : Type} (key : document A -> Z) (a b : document A)
  : Prop := key a <= key b.

(** The members of a dictionary converted as [mongo_to_dict] does. *)
Definition jsonable (d : dict) : dict :=
  map (fun kv => match kv with (k, v) => (k, mongo_to_dict v) end) d.

(** Does a value hold an [ObjectId] somewhere?  The JSON encoder of the
    framework cannot serialise one, which is what [mongo_to_dict] is for. *)
Fixpoint has_oid (v : value) : bool :=
  match v with
  | VOid _ => true
  | VList l => existsb has_oid l
  | VDict d => existsb (fun kv => match kv with (_, v) => has_oid v end) d
  | _ => false
  end.

(** A state-changing request: one of the four inserts, or a delete. *)
Inductive request : Type :=
| Insert (r : insert_request)
| Delete (number_of_entries : Z) (collection_name : string).

Definition serve (db : DB) (q : request) : DB :=
  match q with
  | Insert r => post db r
  | Delete n name => fst (delete_entries n name db)
  end.

Definition serve_all (qs : list request) (db : DB) : DB :=
  fold_left serve qs db.

(** Per store: how many documents it holds, its maximum, and whether an
    insert goes to it. *)
Definition occupancy (h : handle) (db : DB) : Z :=
  match h with
  | Snapshots => count_documents (snapshot_collection db)
  | Steps => count_documents (step_collection db)
  | Transactions => count_documents (transaction_collection db)
  | Logs => count_documents (log_collection db)
  end.

Definition capacity (h : handle) : Z :=
  match h with
  | Snapshots => max_size_snapshots_collection
  | Steps => max_size_steps_collection
  | Transactions => max_size_transactions_collection
  | Logs => max_size_log_collection
  end.

Definition targets (h : handle) (r : insert_request) : bool :=
  match h, r with
  | Snapshots, PostSnapshot _ => true
  | Steps, PostStep _ => true
  | Transactions, PostTransaction _ => true
  | Logs, PostLog _ => true
  | _, _ => false
  end.

(** The object ids held by a store. *)
Definition ids_of (h : handle) (db : DB) : list ObjectId :=
  match h with
  | Snapshots => map _id (snapshot_collection db)
  | Steps => map _id (step_collection db)
  | Transactions => map _id (transaction_collection db)
  | Logs => map _id (log_collection db)
  end.

(** The last [n] elements of a list. *)
Definition keep_last {A : Type} (n : nat) (l : list A) : list A :=
  skipn (List.length l - n) l.

(** The documents a run of accepted inserts adds: the records, each under
    the object id the driver generated for it. *)
Fixpoint arrivals {A : Type} (ids : nat -> ObjectId) (n : nat)
         (ls : list A) : list (document A) :=
  match ls with
  | [] => []
  | a :: ls' => {| _id := ids n; body := a |} :: arrivals ids (S n) ls'
  end.

(** A listed transaction as [get_all_transactions] builds it, lines
    159-162. *)
Definition listed (db : DB) (transaction : document Transaction) : value :=
  mongo_to_dict
    (VDict (dict_set (Transaction_doc transaction) "steps"
              (VList (steps_of (Transaction_id (body transaction)) db)))).

(** ** Sample data *)

Definition sample_node : Node := {| Node_type := "function"; Node_name := "n1" |}.

Definition sample_transaction (id : string) (s : Z) : Transaction :=
  {| Transaction_id := id; start := s; end_ := s; receiver := ["sink"];
     sender := "source"; logs := [] |}.

Definition sample_step (id transaction : string) (t : Z) : Step :=
  {| Step_id := id; Step_topic := "topic"; Step_node := sample_node;
     Step_transaction := transaction; Step_createdAt := t;
     snapshotId := "snap" |}.

Definition sample_snapshot (id transaction : string) (t : Z) : Snapshot :=
  {| Snapshot_id := id; Snapshot_transaction := transaction;
     Snapshot_node := sample_node; Snapshot_createdAt := t;
     msg := {| payload := VInt 7; topic := "topic" |} |}.

Definition sample_log (id : string) : Log := {| Log_id := id |}.

Definition T1 := sample_transaction "T1" 1.
Definition T2 := sample_transaction "T2" 2.
Definition T3 := sample_transaction "T3" 3.
Definition T4 := sample_transaction "T4" 4.

(** Fifty snapshots, steps and logs and three transactions: every store
    at its maximum. *)
Definition full_requests : list insert_request :=
  (map (fun i => PostSnapshot
                   (sample_snapshot (str (Z.of_nat i)) "T1" (Z.of_nat i)))
     (seq 0 50)
   ++ map (fun i => PostStep
                      (sample_step (str (Z.of_nat i)) "T1" (Z.of_nat i)))
        (seq 0 50)
   ++ [PostTransaction T1; PostTransaction T2; PostTransaction T3]
   ++ map (fun i => PostLog (sample_log (str (Z.of_nat i)))) (seq 0 50))%list.

Definition full_db : DB := post_all full_requests empty_db.

(** Five log entries. *)
Definition five_logs_db : DB :=
  post_all (map (fun i => PostLog (sample_log (str (Z.of_nat i)))) (seq 0 5))
    empty_db.

(** A transaction with one step, before and after three later
    transactions arrive. *)
Definition orphan_step : Step := sample_step "S1" "T1" 1.

Definition db_with_step : DB :=
  post_all [PostTransaction T1; PostStep orphan_step] empty_db.

(** A full transaction store whose oldest entry shares its id with the
    record about to be inserted. *)
Definition three_transactions_db : DB :=
  post_all [PostTransaction T1; PostTransaction T2; PostTransaction T3]
    empty_db.

Definition T1_again : Transaction := sample_transaction "T1" 9.

(** Three transactions that arrived out of order: T3 first, then T1,
    then T2. *)
Definition out_of_order_db : DB :=
  post_all [PostTransaction T3; PostTransaction T1; PostTransaction T2]
    empty_db.

(** A transaction whose [start] BSON cannot hold. *)
Definition T_late : Transaction := sample_transaction "late" (2 ^ 63).

(** A driver whose first two object ids come out in descending order, as
    across a wrap of the counter, and fifty logs stored under its ids. *)
Definition wrapping_ids (n : nat) : ObjectId :=
  match n with
  | 0%nat => 1%N
  | 1%nat => 0%N
  | _ => N.of_nat n
  end.

Definition wrapped_logs_db : DB :=
  post_all (map (fun i => PostLog (sample_log (str (Z.of_nat i)))) (seq 0 50))
    (empty_db_with wrapping_ids (fun _ => None)).

(** ** Facts about the driver model *)

Section PymongoFacts.

Context {A : Type}.
Implicit Types (c cur l : list (document A)) (key : document A -> Z).

Lemma count_documents_snoc c d :
  count_documents (c ++ [d])%list = count_documents c + 1.
Proof. unfold count_documents. rewrite length_app. simpl. lia. Qed.

Lemma sort_insert_perm key x l : Permutation (sort_insert key x l) (x :: l).
Proof.
  induction l as [|y l IH]; simpl.
  - apply Permutation_refl.
  - destruct (key x <=? key y).
    + apply Permutation_refl.
    + eapply perm_trans; [apply perm_skip, IH | apply perm_swap].
Qed.

Lemma sort_perm key l : Permutation (sort key l) l.
Proof.
  induction l as [|x l IH]; simpl.
  - constructor.
  - eapply perm_trans; [apply sort_insert_perm | now apply perm_skip].
Qed.

Lemma sort_length key l : List.length (sort key l) = List.length l.
Proof. apply Permutation_length, sort_perm. Qed.

Lemma sort_insert_sorted key x l :
  StronglySorted (key_le key) l ->
  StronglySorted (key_le key) (sort_insert key x l).
Proof.
  induction 1 as [|y l Hl IH Hy]; simpl.
  - repeat constructor.
  - destruct (Z.leb_spec (key x) (key y)) as [Hxy|Hxy].
    + constructor; [now constructor|].
      constructor; [exact Hxy|].
      eapply Forall_impl; [|exact Hy].
      intros b Hb. unfold key_le in *. lia.
    + constructor; [exact IH|].
      eapply Permutation_Forall.
      * apply Permutation_sym, sort_insert_perm.
      * constructor; [unfold key_le; lia | exact Hy].
Qed.

Lemma sort_sorted key l : StronglySorted (key_le key) (sort key l).
Proof.
  induction l as [|x l IH]; simpl.
  - constructor.
  - now apply sort_insert_sorted.
Qed.

Lemma sorted_app_le key l1 l2 :
  StronglySorted (key_le key) (l1 ++ l2) ->
  forall a b, In a l1 -> In b l2 -> key a <= key b.
Proof.
  induction l1 as [|x l1 IH]; simpl; intros Hs a b Ha Hb.
  - contradiction.
  - inversion Hs as [|? ? Hs' Hx]; subst.
    destruct Ha as [<-|Ha].
    + rewrite Forall_forall in Hx. apply Hx, in_or_app. now right.
    + now apply IH.
Qed.

Lemma filter_perm (f : document A -> bool) l l' :
  Permutation l l' -> Permutation (filter f l) (filter f l').
Proof.
  induction 1 as [|x l l' _ IH|x y l|l l' l'' _ IH1 _ IH2]; simpl.
  - constructor.
  - destruct (f x); [now constructor | exact IH].
  - destruct (f x), (f y); try apply Permutation_refl. apply perm_swap.
  - eapply perm_trans; eassumption.
Qed.

End PymongoFacts.

Section IdFacts.

Lemma existsb_eqb_In (x : N) (l : list N) :
  existsb (N.eqb x) l = true <-> In x l.
Proof.
  rewrite existsb_exists. split.
  - intros (y & Hy & Heq). apply N.eqb_eq in Heq. now subst.
  - intros H. exists x. split; [exact H | apply N.eqb_refl].
Qed.

Lemma distinct_NoDup (ids : list N) : distinct ids = true <-> NoDup ids.
Proof.
  induction ids as [|x ids IH]; simpl.
  - split; [constructor | reflexivity].
  - rewrite andb_true_iff, negb_true_iff, IH. split.
    + intros [Hx Hnd]. constructor; [|exact Hnd].
      intros Hin. apply existsb_eqb_In in Hin. congruence.
    + intros H. inversion H as [|? ? Hnotin Hnd]; subst. split; [|exact Hnd].
      destruct (existsb (N.eqb x) ids) eqn:E; [|reflexivity].
      apply existsb_eqb_In in E. contradiction.
Qed.

Lemma NoDup_app_apart (l1 l2 : list N) :
  NoDup (l1 ++ l2) -> forall x, In x l1 -> In x l2 -> False.
Proof.
  induction l1 as [|a l1 IH]; simpl; intros Hnd x H1 H2; [contradiction|].
  inversion Hnd as [|? ? Hnotin Hnd']; subst.
  destruct H1 as [->|H1].
  - apply Hnotin, in_or_app. now right.
  - now apply (IH Hnd' x).
Qed.

Lemma NoDup_snoc (l : list N) (x : N) :
  NoDup l -> ~ In x l -> NoDup (l ++ [x]).
Proof.
  intros Hnd Hx. apply NoDup_app; [exact Hnd | repeat constructor; intros [] |].
  intros a Ha [<-|[]]. contradiction.
Qed.

End IdFacts.

Section DeleteFacts.

Context {A : Type}.
Implicit Types (c cur l : list (document A)) (key : document A -> Z).

Lemma id_in_spec ids (d : document A) :
  id_in ids d = true <-> In (_id d) ids.
Proof. unfold id_in. apply existsb_eqb_In. Qed.

Lemma delete_many_fst ids c :
  fst (delete_many ids c) = filter (fun d => negb (id_in ids d)) c.
Proof. reflexivity. Qed.

Lemma delete_many_subset ids c d :
  In d (fst (delete_many ids c)) <-> In d c /\ ~ In (_id d) ids.
Proof.
  rewrite delete_many_fst, filter_In, negb_true_iff.
  rewrite <- id_in_spec. now destruct (id_in ids d); intuition.
Qed.

Lemma filter_listed ids l :
  (forall d, In d l -> In (_id d) ids) ->
  filter (fun d => negb (id_in ids d)) l = [].
Proof.
  induction l as [|x l IH]; simpl; intros H; [reflexivity|].
  assert (Hx : id_in ids x = true) by (apply id_in_spec, H; now left).
  rewrite Hx. simpl. apply IH. intros d Hd. apply H. now right.
Qed.

Lemma filter_unlisted ids l :
  (forall d, In d l -> ~ In (_id d) ids) ->
  filter (fun d => negb (id_in ids d)) l = l.
Proof.
  induction l as [|x l IH]; simpl; intros H; [reflexivity|].
  assert (Hx : id_in ids x = false).
  { destruct (id_in ids x) eqn:E; [|reflexivity].
    apply id_in_spec in E. exfalso. apply (H x); [now left | exact E]. }
  rewrite Hx. simpl. f_equal. apply IH. intros d Hd. apply H. now right.
Qed.

Lemma filter_drops (f : document A -> bool) l d :
  In d l -> f d = false ->
  (List.length (filter f l) < List.length l)%nat.
Proof.
  induction l as [|x l IH]; simpl; intros Hin Hf; [contradiction|].
  destruct Hin as [->|Hin].
  - rewrite Hf. pose proof (filter_length_le f l). lia.
  - specialize (IH Hin Hf). destruct (f x); simpl; lia.
Qed.

Lemma NoDup_ids_filter (f : document A -> bool) c :
  NoDup (map _id c) -> NoDup (map _id (filter f c)).
Proof.
  induction c as [|x c IH]; simpl; intros H; [constructor|].
  inversion H as [|? ? Hnotin Hnd]; subst.
  destruct (f x); simpl; [|now apply IH].
  constructor; [|now apply IH].
  intros Hin. apply Hnotin.
  apply in_map_iff in Hin as (d & Heq & Hd).
  apply filter_In in Hd as [Hd _]. rewrite <- Heq. now apply in_map.
Qed.

Lemma int64_spec z : int64 z = true <-> - 2 ^ 63 <= z < 2 ^ 63.
Proof. unfold int64. rewrite andb_true_iff, Z.leb_le, Z.ltb_lt. tauto. Qed.

Lemma limit_positive n cur :
  0 < n < 2 ^ 63 -> limit n cur = inr (firstn (Z.to_nat n) cur).
Proof.
  intros Hn. unfold limit.
  destruct (Z.eqb_spec n 0); [lia|].
  assert (H : int64 (Z.abs n) = true) by (apply int64_spec; lia).
  rewrite H. cbn [negb].
  destruct (Z.ltb_spec n 0); [lia|]. reflexivity.
Qed.


Lemma limit_overflow n cur : 2 ^ 63 <= Z.abs n -> limit n cur = inl OverflowError.
Proof.
  intros Hn. unfold limit.
  destruct (Z.eqb_spec n 0) as [->|_]; [simpl in Hn; lia|].
  assert (H : int64 (Z.abs n) = false).
  { destruct (int64 (Z.abs n)) eqn:E; [|reflexivity].
    apply int64_spec in E. lia. }
  now rewrite H.
Qed.

Lemma delete_prefix (l1 l2 : list (document A)) :
  NoDup (map _id (l1 ++ l2)) ->
  filter (fun d => negb (id_in (map _id l1) d)) (l1 ++ l2) = l2.
Proof.
  intros Hnd. rewrite filter_app, filter_listed, filter_unlisted.
  - reflexivity.
  - intros d Hd Hin. rewrite map_app in Hnd.
    apply (NoDup_app_apart _ _ Hnd (_id d)); [exact Hin | now apply in_map].
  - intros d Hd. now apply in_map.
Qed.

(** Deleting the first [chunk] documents of the sorted collection
    splits the collection into them and the rest. *)
Lemma evict_split key chunk c :
  NoDup (map _id c) ->
  0 < chunk <= count_documents c ->
  let ev := firstn (Z.to_nat chunk) (sort key c) in
  let kept := fst (delete_many (map _id ev) c) in
  Permutation c (ev ++ kept)
  /\ Z.of_nat (List.length ev) = chunk
  /\ forall e r, In e ev -> In r kept -> key e <= key r.
Proof.
  intros Hnd [Hpos Hle] ev kept.
  set (s := sort key c) in *.
  set (n := Z.to_nat chunk) in *.
  set (rest := skipn n s).
  assert (Hs : s = (ev ++ rest)%list) by (symmetry; apply firstn_skipn).
  assert (Hperm : Permutation s c) by apply sort_perm.
  assert (Hnds : NoDup (map _id (ev ++ rest))).
  { rewrite <- Hs. eapply Permutation_NoDup; [|exact Hnd].
    apply Permutation_map, Permutation_sym, Hperm. }
  assert (Hkept : Permutation kept rest).
  { unfold kept. rewrite delete_many_fst.
    eapply perm_trans; [apply filter_perm, Permutation_sym, Hperm|].
    rewrite Hs, delete_prefix by exact Hnds. apply Permutation_refl. }
  split; [|split].
  - eapply perm_trans; [apply Permutation_sym, Hperm|].
    rewrite Hs. apply Permutation_app_head, Permutation_sym, Hkept.
  - unfold ev. rewrite length_firstn. unfold s. rewrite sort_length.
    unfold count_documents in Hle. unfold n. lia.
  - intros e r He Hr.
    apply (sorted_app_le key ev rest); [| exact He |].
    + rewrite <- Hs. apply sort_sorted.
    + eapply Permutation_in; [exact Hkept | exact Hr].
Qed.

(** An eviction from a collection that is not empty removes something. *)
Lemma evict_shrinks key chunk c :
  0 < chunk -> c <> [] ->
  count_documents
    (fst (delete_many (map _id (firstn (Z.to_nat chunk) (sort key c))) c))
  < count_documents c.
Proof.
  intros Hpos Hne. unfold count_documents.
  pose proof (sort_length key c) as Hlen.
  destruct (sort key c) as [|e s] eqn:Es.
  - destruct c; [congruence | simpl in Hlen; lia].
  - assert (Hin : In e c).
    { eapply Permutation_in; [apply sort_perm with (key := key)|].
      rewrite Es. now left. }
    destruct (Z.to_nat chunk) as [|n] eqn:En; [lia|].
    rewrite delete_many_fst.
    apply Nat2Z.inj_lt, (filter_drops _ c e Hin).
    apply negb_false_iff, id_in_spec. simpl. now left.
Qed.

End DeleteFacts.

(** ** Eviction and insertion on one collection *)

Section Evict.

Context {A : Type}.
Variable key : document A -> Z.
Variables cap chunk : Z.
Hypothesis chunk_positive : 0 < chunk.
Hypothesis chunk_le_cap : chunk <= cap.

Lemma evict_full (c : collection A) :
  cap <= count_documents c ->
  evict key cap chunk c
  = fst (delete_many (map _id (firstn (Z.to_nat chunk) (sort key c))) c).
Proof.
  intros Hfull. unfold evict.
  destruct (Z.geb_spec (count_documents c) cap); [reflexivity | lia].
Qed.

Lemma evict_room (c : collection A) :
  count_documents c < cap -> evict key cap chunk c = c.
Proof.
  intros Hroom. unfold evict.
  destruct (Z.geb_spec (count_documents c) cap); [lia | reflexivity].
Qed.

Lemma evict_subset (c : collection A) d :
  In d (evict key cap chunk c) -> In d c.
Proof.
  unfold evict. destruct (count_documents c >=? cap); [|trivial].
  intros H. now apply delete_many_subset in H.
Qed.

Lemma evict_NoDup (c : collection A) :
  NoDup (map _id c) -> NoDup (map _id (evict key cap chunk c)).
Proof.
  unfold evict. destruct (count_documents c >=? cap); [|trivial].
  rewrite delete_many_fst. apply NoDup_ids_filter.
Qed.

Lemma evict_makes_room (c : collection A) :
  count_documents c <= cap -> count_documents (evict key cap chunk c) < cap.
Proof.
  intros Hle.
  destruct (Z.lt_ge_cases (count_documents c) cap) as [Hroom|Hfull].
  - now rewrite evict_room.
  - rewrite evict_full by exact Hfull.
    assert (Hne : c <> []).
    { intros ->. unfold count_documents in Hfull. simpl in Hfull. lia. }
    pose proof (evict_shrinks key chunk c chunk_positive Hne). lia.
Qed.

Lemma evict_oldest (c : collection A) (added : list (document A)) :
  NoDup (map _id c) ->
  cap <= count_documents c ->
  evicts_oldest key chunk c (evict key cap chunk c ++ added)%list added.
Proof.
  intros Hnd Hfull. rewrite evict_full by exact Hfull.
  destruct (evict_split key chunk c Hnd) as (Hperm & Hlen & Hmin); [lia|].
  eexists _, _. repeat split; eassumption.
Qed.

End Evict.

Section InsertOne.

Context {A : Type}.
Variable to_dict : A -> dict.
Variable refuses : dict -> option exn.

Lemma insert_one_accepts doc oid (c c' : collection A) :
  insert_one to_dict refuses doc oid c = inr c' ->
  c' = (c ++ [{| _id := oid; body := doc |}])%list /\ ~ In oid (map _id c).
Proof.
  unfold insert_one.
  destruct (bson_error _); [discriminate|].
  destruct (refuses _); [discriminate|].
  destruct (existsb (N.eqb oid) (map _id c)) eqn:E; [discriminate|].
  intros H. injection H as <-. split; [reflexivity|].
  intros Hin. apply existsb_eqb_In in Hin. congruence.
Qed.

Lemma insert_one_overflow doc oid (c : collection A) :
  bson_error (VDict (to_dict doc)) = Some OverflowError ->
  insert_one to_dict refuses doc oid c = inl OverflowError.
Proof. intros H. unfold insert_one. now rewrite H. Qed.

End InsertOne.

(** ** The effect of each POST handler on the database *)

Ltac handler_effect E :=
  match goal with
  | |- context [count_documents ?c >=? ?cap] =>
      unfold evict; destruct (count_documents c >=? cap) eqn:E;
      [rewrite limit_positive by (split; reflexivity)|];
      cbn [fresh_oid fst snd snapshot_collection step_collection
           transaction_collection log_collection object_ids drawn refusal
           with_snapshots with_steps with_transactions with_logs next_oid];
      match goal with
      | |- context [insert_one ?td ?rf ?doc ?oid ?k] =>
          let I := fresh "I" in
          destruct (insert_one td rf doc oid k) as [e|c'] eqn:I;
          [|apply insert_one_accepts in I as [-> I]]
      end
  end.

Lemma create_snapshot_effect snapshot db :
  fst (create_snapshot snapshot db)
  = {| snapshot_collection :=
         (evict (fun entry => Snapshot_createdAt (body entry))
            max_size_snapshots_collection
            chunk_size_to_delete_from_snapshots_collection
            (snapshot_collection db)
          ++ inserted (snd (create_snapshot snapshot db))
               {| _id := next_oid db; body := snapshot |})%list;
       step_collection := step_collection db;
       transaction_collection := transaction_collection db;
       log_collection := log_collection db;
       object_ids := object_ids db;
       drawn := S (drawn db);
       refusal := refusal db |}.
Proof.
  unfold create_snapshot. handler_effect E; cbn; now rewrite ?app_nil_r.
Qed.

Lemma create_step_effect step db :
  fst (create_step step db)
  = {| snapshot_collection := snapshot_collection db;
       step_collection :=
         (evict (fun entry => Step_createdAt (body entry))
            max_size_steps_collection
            chunk_size_to_delete_from_steps_collection
            (step_collection db)
          ++ inserted (snd (create_step step db))
               {| _id := next_oid db; body := step |})%list;
       transaction_collection := transaction_collection db;
       log_collection := log_collection db;
       object_ids := object_ids db;
       drawn := S (drawn db);
       refusal := refusal db |}.
Proof.
  unfold create_step. handler_effect E; cbn; now rewrite ?app_nil_r.
Qed.

Lemma create_transaction_effect transaction db :
  fst (create_transaction transaction db)
  = {| snapshot_collection := snapshot_collection db;
       step_collection := step_collection db;
       transaction_collection :=
         (evict (fun entry => start (body entry))
            max_size_transactions_collection
            chunk_size_to_delete_from_transactions_collection
            (transaction_collection db)
          ++ inserted (snd (create_transaction transaction db))
               {| _id := next_oid db; body := transaction |})%list;
       log_collection := log_collection db;
       object_ids := object_ids db;
       drawn := S (drawn db);
       refusal := refusal db |}.
Proof.
  unfold create_transaction. handler_effect E; cbn; now rewrite ?app_nil_r.
Qed.

Lemma create_log_effect log db :
  fst (create_log log db)
  = {| snapshot_collection := snapshot_collection db;
       step_collection := step_collection db;
       transaction_collection := transaction_collection db;
       log_collection :=
         (evict (fun entry => Z.of_N (_id entry))
            max_size_log_collection
            chunk_size_to_delete_from_log_collection
            (log_collection db)
          ++ inserted (snd (create_log log db))
               {| _id := next_oid db; body := log |})%list;
       object_ids := object_ids db;
       drawn := S (drawn db);
       refusal := refusal db |}.
Proof.
  unfold create_log. handler_effect E; cbn; now rewrite ?app_nil_r.
Qed.

(** A POST handler answers 200 with its fixed message and the record, or
    lets an exception escape; and it answers 200 only for an object id the
    store does not have. *)
Lemma create_snapshot_answer snapshot db :
  (snd (create_snapshot snapshot db) = Ok ("Snapshot saved", snapshot)
   /\ ~ In (next_oid db)
        (map _id (evict (fun entry => Snapshot_createdAt (body entry))
                    max_size_snapshots_collection
                    chunk_size_to_delete_from_snapshots_collection
                    (snapshot_collection db))))
  \/ exists e, snd (create_snapshot snapshot db) = Raised e.
Proof.
  unfold create_snapshot. handler_effect E; cbn; eauto.
Qed.

Lemma create_step_answer step db :
  (snd (create_step step db) = Ok ("Step saved", step)
   /\ ~ In (next_oid db)
        (map _id (evict (fun entry => Step_createdAt (body entry))
                    max_size_steps_collection
                    chunk_size_to_delete_from_steps_collection
                    (step_collection db))))
  \/ exists e, snd (create_step step db) = Raised e.
Proof.
  unfold create_step. handler_effect E; cbn; eauto.
Qed.

Lemma create_transaction_answer transaction db :
  (snd (create_transaction transaction db)
   = Ok ("Transaction saved", transaction)
   /\ ~ In (next_oid db)
        (map _id (evict (fun entry => start (body entry))
                    max_size_transactions_collection
                    chunk_size_to_delete_from_transactions_collection
                    (transaction_collection db))))
  \/ exists e, snd (create_transaction transaction db) = Raised e.
Proof.
  unfold create_transaction. handler_effect E; cbn; eauto.
Qed.

Lemma create_log_answer log db :
  (snd (create_log log db) = Ok ("Log saved", log)
   /\ ~ In (next_oid db)
        (map _id (evict (fun entry => Z.of_N (_id entry))
                    max_size_log_collection
                    chunk_size_to_delete_from_log_collection
                    (log_collection db))))
  \/ exists e, snd (create_log log db) = Raised e.
Proof.
  unfold create_log. handler_effect E; cbn; eauto.
Qed.

Lemma is_ok_Ok {R : Type} (r : response R) :
  is_ok r = true -> exists a, r = Ok a.
Proof. destruct r; try discriminate. eauto. Qed.

Lemma inserted_ok {R A : Type} (r : response R) (a : R) (doc : document A) :
  r = Ok a -> inserted r doc = [doc].
Proof. now intros ->. Qed.

Lemma inserted_raised {R A : Type} (r : response R) e (doc : document A) :
  r = Raised e -> inserted r doc = [].
Proof. now intros ->. Qed.

Lemma inserted_length {R A : Type} (r : response R) (doc : document A) :
  List.length (inserted r doc) = if is_ok r then 1%nat else 0%nat.
Proof. unfold inserted. now destruct (is_ok r). Qed.

(** ** Distinct object ids *)

Lemma wf_db_parts db :
  wf_db db = true ->
  NoDup (map _id (snapshot_collection db))
  /\ NoDup (map _id (step_collection db))
  /\ NoDup (map _id (transaction_collection db))
  /\ NoDup (map _id (log_collection db)).
Proof.
  unfold wf_db. intros H.
  apply andb_prop in H as [H H4]. apply andb_prop in H as [H H3].
  apply andb_prop in H as [H1 H2].
  now rewrite <- !distinct_NoDup.
Qed.

Lemma wf_db_intro db :
  NoDup (map _id (snapshot_collection db)) ->
  NoDup (map _id (step_collection db)) ->
  NoDup (map _id (transaction_collection db)) ->
  NoDup (map _id (log_collection db)) ->
  wf_db db = true.
Proof.
  unfold wf_db. rewrite <- !distinct_NoDup. now intros -> -> -> ->.
Qed.

Lemma wf_empty_db_with ids refuses : wf_db (empty_db_with ids refuses) = true.
Proof. reflexivity. Qed.

Lemma wf_empty_db : wf_db empty_db = true.
Proof. reflexivity. Qed.

Lemma store_after_NoDup {A R : Type} (key : document A -> Z) (cap chunk : Z)
      (c : collection A) (r : response R) (a : R) (doc : document A) :
  NoDup (map _id c) ->
  (r = Ok a /\ ~ In (_id doc) (map _id (evict key cap chunk c))
   \/ exists e, r = Raised e) ->
  NoDup (map _id (evict key cap chunk c ++ inserted r doc)).
Proof.
  intros Hnd [[-> Hfresh]|[e ->]]; cbn [inserted is_ok].
  - rewrite map_app. apply NoDup_snoc; [now apply evict_NoDup | exact Hfresh].
  - rewrite app_nil_r. now apply evict_NoDup.
Qed.

Lemma wf_post db r : wf_db db = true -> wf_db (post db r) = true.
Proof.
  intros H. apply wf_db_parts in H as (H1 & H2 & H3 & H4).
  destruct r; cbn [post];
    [rewrite create_snapshot_effect | rewrite create_step_effect
    | rewrite create_transaction_effect | rewrite create_log_effect];
    apply wf_db_intro;
    cbn [snapshot_collection step_collection transaction_collection
         log_collection];
    try assumption.
  - eapply store_after_NoDup; [exact H1 | apply create_snapshot_answer].
  - eapply store_after_NoDup; [exact H2 | apply create_step_answer].
  - eapply store_after_NoDup; [exact H3 | apply create_transaction_answer].
  - eapply store_after_NoDup; [exact H4 | apply create_log_answer].
Qed.

Lemma wf_post_all rs db : wf_db db = true -> wf_db (post_all rs db) = true.
Proof.
  unfold post_all. revert db.
  induction rs as [|r rs IH]; simpl; intros db H; [exact H|].
  apply IH, wf_post, H.
Qed.

Lemma delete_first_fst {A : Type} n (c c' : collection A) k :
  delete_first n c = inr (c', k) ->
  exists ids, c' = filter (fun d => negb (id_in ids d)) c
              /\ k = count_documents c - count_documents c'.
Proof.
  unfold delete_first. destruct (limit n (find c)) as [e|l]; [discriminate|].
  unfold delete_many. intros H. injection H as <- <-.
  eexists. split; [reflexivity|].
  unfold count_documents.
  pose proof (filter_length_le (fun d => negb (id_in (map _id l) d)) c). lia.
Qed.

(** What [delete_entries] does to the database, in one equation per
    outcome of reading the cursor. *)
Lemma delete_entries_effect n name h db :
  collections name = Some h ->
  match h with
  | Snapshots =>
      match delete_first n (snapshot_collection db) with
      | inl e => delete_entries n name db = (db, Raised e)
      | inr (c, k) =>
          delete_entries n name db
          = (with_snapshots db c, Ok (deleted_message k name))
      end
  | Steps =>
      match delete_first n (step_collection db) with
      | inl e => delete_entries n name db = (db, Raised e)
      | inr (c, k) =>
          delete_entries n name db
          = (with_steps db c, Ok (deleted_message k name))
      end
  | Transactions =>
      match delete_first n (transaction_collection db) with
      | inl e => delete_entries n name db = (db, Raised e)
      | inr (c, k) =>
          delete_entries n name db
          = (with_transactions db c, Ok (deleted_message k name))
      end
  | Logs =>
      match delete_first n (log_collection db) with
      | inl e => delete_entries n name db = (db, Raised e)
      | inr (c, k) =>
          delete_entries n name db
          = (with_logs db c, Ok (deleted_message k name))
      end
  end.
Proof.
  intros Hname. unfold delete_entries. rewrite Hname.
  destruct h;
    match goal with
    | |- context [delete_first n ?c] =>
        destruct (delete_first n c) as [e|[c' k]]; reflexivity
    end.
Qed.

Lemma wf_delete_entries n name db :
  wf_db db = true -> wf_db (fst (delete_entries n name db)) = true.
Proof.
  intros H. pose proof H as (H1 & H2 & H3 & H4)%wf_db_parts.
  destruct (collections name) as [h|] eqn:Hname.
  - pose proof (delete_entries_effect n name h db Hname) as Heff.
    destruct h;
      match type of Heff with
      | context [delete_first n ?c] =>
          destruct (delete_first n c) as [e|[c' k]] eqn:D;
          rewrite Heff; cbn [fst]; [exact H|];
          apply delete_first_fst in D as (ids & -> & _);
          apply wf_db_intro; cbn; try assumption;
          now apply NoDup_ids_filter
      end.
  - unfold delete_entries. now rewrite Hname.
Qed.

Lemma post_capacity (db : DB) (r : insert_request) :
  (count_documents (snapshot_collection db) <= max_size_snapshots_collection ->
   count_documents (snapshot_collection (post db r))
   <= max_size_snapshots_collection)
  /\ (count_documents (step_collection db) <= max_size_steps_collection ->
      count_documents (step_collection (post db r))
      <= max_size_steps_collection)
  /\ (count_documents (transaction_collection db)
      <= max_size_transactions_collection ->
      count_documents (transaction_collection (post db r))
      <= max_size_transactions_collection)
  /\ (count_documents (log_collection db) <= max_size_log_collection ->
      count_documents (log_collection (post db r))
      <= max_size_log_collection).
Proof.
  destruct r; cbn [post];
    [rewrite create_snapshot_effect | rewrite create_step_effect
    | rewrite create_transaction_effect | rewrite create_log_effect];
    cbn [snapshot_collection step_collection transaction_collection
         log_collection];
    repeat split; intros H; try exact H;
    match goal with
    | |- count_documents (evict ?key ?cap ?chunk ?c ++ inserted ?r ?d)%list
         <= _ =>
        pose proof (evict_makes_room key cap chunk eq_refl
                      ltac:(discriminate) c H) as Hroom;
        pose proof (inserted_length r d) as Hlen;
        unfold count_documents in *; rewrite length_app;
        destruct (is_ok r); lia
    end.
Qed.

(** ** Eviction on insert *)

(** C1.  In a database whose object ids are distinct within each
    collection, an insert into a store that holds at least its maximum
    removes exactly the chunk (one document) of smallest ordering value:
    the old collection splits into the evicted chunk and the remainder, no
    evicted document has a larger ordering value than a remaining one, and
    the new collection is the remainder, followed by the new document when
    the handler answered 200.  The ordering value is [createdAt] for
    snapshots and steps, [start] for transactions and the object id [_id]
    for logs.  Inserting T1..T4 with start times 1,2,3,4 into the empty
    transaction store (maximum 3, chunk 1) leaves exactly T2, T3, T4. *)
Theorem insert_evicts_oldest_chunk (db : DB) (Hwf : wf_db db = true) :
  (forall snapshot,
      max_size_snapshots_collection
      <= count_documents (snapshot_collection db) ->
      evicts_oldest (fun entry => Snapshot_createdAt (body entry))
        chunk_size_to_delete_from_snapshots_collection
        (snapshot_collection db)
        (snapshot_collection (fst (create_snapshot snapshot db)))
        (inserted (snd (create_snapshot snapshot db))
           {| _id := next_oid db; body := snapshot |}))
  /\ (forall step,
         max_size_steps_collection <= count_documents (step_collection db) ->
         evicts_oldest (fun entry => Step_createdAt (body entry))
           chunk_size_to_delete_from_steps_collection
           (step_collection db)
           (step_collection (fst (create_step step db)))
           (inserted (snd (create_step step db))
              {| _id := next_oid db; body := step |}))
  /\ (forall transaction,
         max_size_transactions_collection
         <= count_documents (transaction_collection db) ->
         evicts_oldest (fun entry => start (body entry))
           chunk_size_to_delete_from_transactions_collection
           (transaction_collection db)
           (transaction_collection (fst (create_transaction transaction db)))
           (inserted (snd (create_transaction transaction db))
              {| _id := next_oid db; body := transaction |}))
  /\ (forall log,
         max_size_log_collection <= count_documents (log_collection db) ->
         evicts_oldest (fun entry => Z.of_N (_id entry))
           chunk_size_to_delete_from_log_collection
           (log_collection db)
           (log_collection (fst (create_log log db)))
           (inserted (snd (create_log log db))
              {| _id := next_oid db; body := log |}))
  /\ map body
       (transaction_collection
          (post_all [PostTransaction T1; PostTransaction T2;
                     PostTransaction T3; PostTransaction T4] empty_db))
     = [T2; T3; T4].
Proof.
  apply wf_db_parts in Hwf as (H1 & H2 & H3 & H4).
  repeat apply conj.
  - intros snapshot Hfull. rewrite create_snapshot_effect.
    cbn [snapshot_collection].
    apply evict_oldest; [reflexivity | discriminate | exact H1 | exact Hfull].
  - intros step Hfull. rewrite create_step_effect. cbn [step_collection].
    apply evict_oldest; [reflexivity | discriminate | exact H2 | exact Hfull].
  - intros transaction Hfull. rewrite create_transaction_effect.
    cbn [transaction_collection].
    apply evict_oldest; [reflexivity | discriminate | exact H3 | exact Hfull].
  - intros log Hfull. rewrite create_log_effect. cbn [log_collection].
    apply evict_oldest; [reflexivity | discriminate | exact H4 | exact Hfull].
  - vm_compute. reflexivity.
Qed.

(** Every store of [full_db] is at its maximum, so each of the four
    inserts evicts there and then appends; an insert the driver refuses
    (a [start] beyond 64 bits) evicts all the same. *)
Lemma insert_evicts_oldest_chunk_witness :
  wf_db full_db = true
  /\ evicts_oldest (fun entry => Snapshot_createdAt (body entry)) 1
       (snapshot_collection full_db)
       (snapshot_collection
          (fst (create_snapshot (sample_snapshot "new" "T4" 99) full_db)))
       [{| _id := next_oid full_db; body := sample_snapshot "new" "T4" 99 |}]
  /\ evicts_oldest (fun entry => Step_createdAt (body entry)) 1
       (step_collection full_db)
       (step_collection
          (fst (create_step (sample_step "new" "T4" 99) full_db)))
       [{| _id := next_oid full_db; body := sample_step "new" "T4" 99 |}]
  /\ evicts_oldest (fun entry => start (body entry)) 1
       (transaction_collection full_db)
       (transaction_collection (fst (create_transaction T4 full_db)))
       [{| _id := next_oid full_db; body := T4 |}]
  /\ evicts_oldest (fun entry => Z.of_N (_id entry)) 1
       (log_collection full_db)
       (log_collection (fst (create_log (sample_log "new") full_db)))
       [{| _id := next_oid full_db; body := sample_log "new" |}]
  /\ evicts_oldest (fun entry => start (body entry)) 1
       (transaction_collection full_db)
       (transaction_collection (fst (create_transaction T_late full_db)))
       [].
Proof.
  assert (Hwf : wf_db full_db = true) by (vm_compute; reflexivity).
  split; [exact Hwf|].
  destruct (insert_evicts_oldest_chunk full_db Hwf)
    as (Hsnap & Hstep & Htx & Hlog & _).
  repeat apply conj.
  - assert (H : max_size_snapshots_collection
                <= count_documents (snapshot_collection full_db))
      by (apply Z.leb_le; vm_compute; reflexivity).
    apply (Hsnap (sample_snapshot "new" "T4" 99)) in H.
    assert (E : inserted
                  (snd (create_snapshot (sample_snapshot "new" "T4" 99) full_db))
                  {| _id := next_oid full_db;
                     body := sample_snapshot "new" "T4" 99 |}
                = [{| _id := next_oid full_db;
                      body := sample_snapshot "new" "T4" 99 |}])
      by (vm_compute; reflexivity).
    rewrite E in H. exact H.
  - assert (H : max_size_steps_collection
                <= count_documents (step_collection full_db))
      by (apply Z.leb_le; vm_compute; reflexivity).
    apply (Hstep (sample_step "new" "T4" 99)) in H.
    assert (E : inserted
                  (snd (create_step (sample_step "new" "T4" 99) full_db))
                  {| _id := next_oid full_db;
                     body := sample_step "new" "T4" 99 |}
                = [{| _id := next_oid full_db;
                      body := sample_step "new" "T4" 99 |}])
      by (vm_compute; reflexivity).
    rewrite E in H. exact H.
  - assert (H : max_size_transactions_collection
                <= count_documents (transaction_collection full_db))
      by (apply Z.leb_le; vm_compute; reflexivity).
    apply (Htx T4) in H.
    assert (E : inserted (snd (create_transaction T4 full_db))
                  {| _id := next_oid full_db; body := T4 |}
                = [{| _id := next_oid full_db; body := T4 |}])
      by (vm_compute; reflexivity).
    rewrite E in H. exact H.
  - assert (H : max_size_log_collection
                <= count_documents (log_collection full_db))
      by (apply Z.leb_le; vm_compute; reflexivity).
    apply (Hlog (sample_log "new")) in H.
    assert (E : inserted (snd (create_log (sample_log "new") full_db))
                  {| _id := next_oid full_db; body := sample_log "new" |}
                = [{| _id := next_oid full_db; body := sample_log "new" |}])
      by (vm_compute; reflexivity).
    rewrite E in H. exact H.
  - assert (H : max_size_transactions_collection
                <= count_documents (transaction_collection full_db))
      by (apply Z.leb_le; vm_compute; reflexivity).
    apply (Htx T_late) in H.
    assert (E : inserted (snd (create_transaction T_late full_db))
                  {| _id := next_oid full_db; body := T_late |}
                = [])
      by (vm_compute; reflexivity).
    rewrite E in H. exact H.
Defined.

(** C1 as stated fails for logs, whose ordering value it takes to be the
    order of insertion: here the first log to arrive got the object id 1
    and the second the object id 0; the insert into the full store evicts
    the second arrival and keeps the first. *)
Lemma logs_are_evicted_by_object_id :
  let new := sample_log "new" in
  wf_db wrapped_logs_db = true
  /\ count_documents (log_collection wrapped_logs_db)
     = max_size_log_collection
  /\ firstn 2 (log_collection wrapped_logs_db)
     = [{| _id := 1%N; body := sample_log "0" |};
        {| _id := 0%N; body := sample_log "1" |}]
  /\ snd (create_log new wrapped_logs_db) = Ok ("Log saved", new)
  /\ firstn 2 (log_collection (fst (create_log new wrapped_logs_db)))
     = [{| _id := 1%N; body := sample_log "0" |};
        {| _id := 2%N; body := sample_log "2" |}]
  /\ existsb (N.eqb 0) (map _id (log_collection (fst (create_log new wrapped_logs_db))))
     = false.
Proof.
  intros new. repeat split; vm_compute; reflexivity.
Qed.

Lemma post_all_capacity_step (db : DB) (r : insert_request) :
  within_capacity db -> within_capacity (post db r).
Proof.
  intros (H1 & H2 & H3 & H4).
  destruct (post_capacity db r) as (P1 & P2 & P3 & P4).
  repeat split; auto.
Qed.

(** C2.  For each store, "occupancy is at most the maximum" is preserved
    by every insert, into that store or into another, and so by every
    sequence of inserts run one after the other: the eviction runs before
    the insertion and makes room for it. *)
Theorem inserts_preserve_capacity (rs : list insert_request) (db : DB) :
  (count_documents (snapshot_collection db) <= max_size_snapshots_collection ->
   count_documents (snapshot_collection (post_all rs db))
   <= max_size_snapshots_collection)
  /\ (count_documents (step_collection db) <= max_size_steps_collection ->
      count_documents (step_collection (post_all rs db))
      <= max_size_steps_collection)
  /\ (count_documents (transaction_collection db)
      <= max_size_transactions_collection ->
      count_documents (transaction_collection (post_all rs db))
      <= max_size_transactions_collection)
  /\ (count_documents (log_collection db) <= max_size_log_collection ->
      count_documents (log_collection (post_all rs db))
      <= max_size_log_collection).
Proof.
  unfold post_all. revert db.
  induction rs as [|r rs IH]; intros db; cbn [fold_left].
  - now repeat split.
  - destruct (IH (post db r)) as (I1 & I2 & I3 & I4).
    destruct (post_capacity db r) as (P1 & P2 & P3 & P4).
    repeat split; auto.
Qed.

(** From the full database, one more insert into each store. *)
Lemma inserts_preserve_capacity_witness :
  within_capacity full_db
  /\ within_capacity
       (post_all [PostSnapshot (sample_snapshot "new" "T4" 99);
                  PostStep (sample_step "new" "T4" 99);
                  PostTransaction T4;
                  PostLog (sample_log "new")] full_db).
Proof.
  assert (H : within_capacity full_db)
    by (repeat split; apply Z.leb_le; vm_compute; reflexivity).
  split; [exact H|].
  destruct H as (H1 & H2 & H3 & H4).
  destruct (inserts_preserve_capacity
              [PostSnapshot (sample_snapshot "new" "T4" 99);
               PostStep (sample_step "new" "T4" 99);
               PostTransaction T4;
               PostLog (sample_log "new")] full_db) as (I1 & I2 & I3 & I4).
  split; [|split; [|split]];
    [apply I1, H1 | apply I2, H2 | apply I3, H3 | apply I4, H4].
Defined.

(** ** Lookups *)

Section FindFacts.

Context {A : Type}.

Lemma find_one_none (f : document A -> bool) c :
  find_one f c = None <-> forall d, In d c -> f d = false.
Proof.
  unfold find_one, find_where.
  induction c as [|x c IH]; simpl.
  - split; [intros _ d [] | reflexivity].
  - destruct (f x) eqn:Ex; simpl.
    + split; [discriminate|]. intros H.
      rewrite (H x) in Ex by now left. discriminate.
    + rewrite IH. split.
      * intros H d [<-|Hd]; [exact Ex | now apply H].
      * intros H d Hd. apply H. now right.
Qed.

Lemma find_one_some (f : document A -> bool) c d :
  find_one f c = Some d -> In d c /\ f d = true.
Proof.
  unfold find_one, find_where. intros H.
  apply filter_In. destruct (filter f c) as [|y l]; [discriminate|].
  injection H as ->. now left.
Qed.

Lemma find_one_present (f : document A -> bool) c d :
  In d c -> f d = true -> exists d', find_one f c = Some d'.
Proof.
  intros Hin Hf. destruct (find_one f c) as [d'|] eqn:E; [now exists d'|].
  rewrite find_one_none in E. rewrite (E d Hin) in Hf. discriminate.
Qed.

End FindFacts.

Lemma steps_idempotent (l : list (document Step)) :
  map mongo_to_dict (map (fun step => mongo_to_dict (VDict (Step_doc step))) l)
  = map (fun step => mongo_to_dict (VDict (Step_doc step))) l.
Proof. rewrite map_map. apply map_ext. reflexivity. Qed.

Lemma get_transaction_found transaction_id db t :
  find_one (fun d => Transaction_id (body d) =? transaction_id)%string
    (transaction_collection db) = Some t ->
  get_transaction transaction_id db
  = Ok (VDict (jsonable (Transaction_doc t)
               ++ [("steps",
                    VList (map (fun step => mongo_to_dict (VDict (Step_doc step)))
                             (filter
                                (fun d => Step_transaction (body d)
                                          =? transaction_id)%string
                                (step_collection db))))])%list).
Proof.
  intros H. unfold get_transaction. rewrite H.
  unfold steps_of, find_where.
  cbn [Transaction_doc Transaction_dict dict_set String.eqb Ascii.eqb
       Bool.eqb].
  cbn [mongo_to_dict map jsonable app].
  now rewrite steps_idempotent.
Qed.

(** C3.  [get_transaction] answers 404 exactly when no resident
    transaction has the requested id.  When one has, the answer is a
    resident transaction with that id, its fields converted, followed by a
    ["steps"] entry listing exactly the resident steps whose [transaction]
    field is the id (in store order); with no such step the list is empty
    and the answer is still a success. *)
Theorem get_transaction_with_steps (transaction_id : string) (db : DB) :
  let matching :=
    filter (fun d => Step_transaction (body d) =? transaction_id)%string
      (step_collection db) in
  (get_transaction transaction_id db
   = HTTPException 404 "Transaction not found"
   <-> forall d, In d (transaction_collection db) ->
                 Transaction_id (body d) <> transaction_id)
  /\ ((exists d, In d (transaction_collection db)
                 /\ Transaction_id (body d) = transaction_id) ->
      exists t,
        In t (transaction_collection db)
        /\ Transaction_id (body t) = transaction_id
        /\ get_transaction transaction_id db
           = Ok (VDict (jsonable (Transaction_doc t)
                        ++ [("steps",
                             VList (map (fun step =>
                                           mongo_to_dict (VDict (Step_doc step)))
                                      matching))])%list))
  /\ (forall s, In s matching
                <-> In s (step_collection db)
                    /\ Step_transaction (body s) = transaction_id)
  /\ ((forall s, In s (step_collection db) ->
                 Step_transaction (body s) <> transaction_id) ->
      matching = []).
Proof.
  intros matching. split; [|split; [|split]].
  - split.
    + intros Hnf d Hd Heq. unfold get_transaction in Hnf.
      destruct (find_one _ (transaction_collection db)) as [t|] eqn:E;
        [discriminate|].
      rewrite find_one_none in E. specialize (E d Hd).
      apply String.eqb_neq in E. contradiction.
    + intros H. unfold get_transaction.
      destruct (find_one _ (transaction_collection db)) as [t|] eqn:E;
        [|reflexivity].
      apply find_one_some in E as [Hin Heq]. apply String.eqb_eq in Heq.
      now destruct (H t Hin).
  - intros (d & Hd & Heq).
    destruct (find_one_present
                (fun d => Transaction_id (body d) =? transaction_id)%string
                _ d Hd) as [t Ht]; [now apply String.eqb_eq|].
    exists t. pose proof (find_one_some _ _ _ Ht) as [Hin Hid].
    apply String.eqb_eq in Hid.
    repeat split; [exact Hin | exact Hid |].
    now apply get_transaction_found.
  - intros s. unfold matching. rewrite filter_In, String.eqb_eq. reflexivity.
  - intros H. unfold matching.
    destruct (filter _ (step_collection db)) as [|s l] eqn:E; [reflexivity|].
    assert (Hs : In s (filter
                         (fun d => Step_transaction (body d) =? transaction_id)%string
                         (step_collection db))) by (rewrite E; now left).
    apply filter_In in Hs as [Hin Heq]. apply String.eqb_eq in Heq.
    now destruct (H s Hin).
Qed.

(** The stored transaction T1 has one step; the answer carries it. *)
Lemma get_transaction_with_steps_witness :
  (exists d, In d (transaction_collection db_with_step)
             /\ Transaction_id (body d) = "T1")
  /\ exists t,
      In t (transaction_collection db_with_step)
      /\ Transaction_id (body t) = "T1"
      /\ get_transaction "T1" db_with_step
         = Ok (VDict (jsonable (Transaction_doc t)
                      ++ [("steps",
                           VList (map (fun step =>
                                         mongo_to_dict (VDict (Step_doc step)))
                                    (filter
                                       (fun d => Step_transaction (body d)
                                                 =? "T1")%string
                                       (step_collection db_with_step))))])%list).
Proof.
  assert (H : exists d, In d (transaction_collection db_with_step)
                        /\ Transaction_id (body d) = "T1").
  { exists {| _id := 0%N; body := T1 |}. split; [|reflexivity].
    vm_compute. left. reflexivity. }
  split; [exact H|].
  exact (proj1 (proj2 (get_transaction_with_steps "T1" db_with_step)) H).
Defined.

(** C5.  [get_snapshots_for_transaction] answers 404 when no resident
    snapshot has the requested transaction id, and otherwise answers with
    exactly the snapshots that have it, converted, in store order. *)
Theorem snapshots_for_transaction (transaction_id : string) (db : DB) :
  let matching :=
    filter (fun d => Snapshot_transaction (body d) =? transaction_id)%string
      (snapshot_collection db) in
  ((forall d, In d (snapshot_collection db) ->
              Snapshot_transaction (body d) <> transaction_id) ->
   get_snapshots_for_transaction transaction_id db
   = HTTPException 404 "No snapshots found for this transaction")
  /\ ((exists d, In d (snapshot_collection db)
                 /\ Snapshot_transaction (body d) = transaction_id) ->
      matching <> []
      /\ get_snapshots_for_transaction transaction_id db
         = Ok (map (fun snapshot => mongo_to_dict (VDict (Snapshot_doc snapshot)))
                 matching))
  /\ (forall s, In s matching
                <-> In s (snapshot_collection db)
                    /\ Snapshot_transaction (body s) = transaction_id).
Proof.
  intros matching. split; [|split].
  - intros H. unfold get_snapshots_for_transaction, find_where.
    destruct (filter _ (snapshot_collection db)) as [|s l] eqn:E;
      [reflexivity|].
    assert (Hs : In s (filter
                         (fun d => Snapshot_transaction (body d)
                                   =? transaction_id)%string
                         (snapshot_collection db))) by (rewrite E; now left).
    apply filter_In in Hs as [Hin Heq]. apply String.eqb_eq in Heq.
    now destruct (H s Hin).
  - intros (d & Hd & Heq).
    assert (Hm : In d matching).
    { apply filter_In. split; [exact Hd | now apply String.eqb_eq]. }
    unfold get_snapshots_for_transaction, find_where. fold matching.
    destruct matching as [|s l]; [contradiction|].
    split; [discriminate | reflexivity].
  - intros s. unfold matching. rewrite filter_In, String.eqb_eq. reflexivity.
Qed.

(** All fifty snapshots of [full_db] belong to T1, none to T2. *)
Lemma snapshots_for_transaction_witness :
  get_snapshots_for_transaction "T2" full_db
  = HTTPException 404 "No snapshots found for this transaction"
  /\ get_snapshots_for_transaction "T1" full_db
     = Ok (map (fun snapshot => mongo_to_dict (VDict (Snapshot_doc snapshot)))
             (filter (fun d => Snapshot_transaction (body d) =? "T1")%string
                (snapshot_collection full_db))).
Proof.
  split.
  - apply (proj1 (snapshots_for_transaction "T2" full_db)).
    apply Forall_forall. vm_compute.
    repeat (constructor; [discriminate|]). constructor.
  - apply (proj1 (proj2 (snapshots_for_transaction "T1" full_db))).
    exists {| _id := 0%N; body := sample_snapshot "0" "T1" 0 |}.
    split; [|reflexivity]. vm_compute. left. reflexivity.
Defined.

(** ** Independence of the collections *)

Lemma post_transactions_frame (txs : list Transaction) (db : DB) :
  let db' := post_all (map PostTransaction txs) db in
  snapshot_collection db' = snapshot_collection db
  /\ step_collection db' = step_collection db
  /\ log_collection db' = log_collection db.
Proof.
  unfold post_all. revert db.
  induction txs as [|t txs IH]; intros db; cbn [map fold_left post];
    [now repeat split|].
  destruct (IH (fst (create_transaction t db))) as (H1 & H2 & H3).
  rewrite H1, H2, H3, create_transaction_effect. now repeat split.
Qed.

(** C6.  Inserting transactions, however many and whatever they evict
    from the transaction store, leaves the steps store as it was: a step
    that was resident is still resident, unchanged, and the listing of the
    steps of its transaction still contains it. *)
Theorem eviction_does_not_cascade
        (txs : list Transaction) (db : DB) (S : document Step) :
  let db' := post_all (map PostTransaction txs) db in
  let X := Step_transaction (body S) in
  In S (step_collection db) ->
  step_collection db' = step_collection db
  /\ In S (step_collection db')
  /\ In S (find_where (fun d => Step_transaction (body d) =? X)%string
             (step_collection db'))
  /\ In (mongo_to_dict (VDict (Step_doc S))) (steps_of X db').
Proof.
  intros db' X HS.
  destruct (post_transactions_frame txs db) as (_ & Hsteps & _).
  fold db' in Hsteps.
  assert (Hlisted : In S (find_where
                            (fun d => Step_transaction (body d) =? X)%string
                            (step_collection db'))).
  { unfold find_where. apply filter_In. rewrite Hsteps.
    split; [exact HS | apply String.eqb_refl]. }
  repeat split.
  - exact Hsteps.
  - now rewrite Hsteps.
  - exact Hlisted.
  - unfold steps_of.
    apply (in_map (fun step => mongo_to_dict (VDict (Step_doc step)))), Hlisted.
Qed.

(** Step S1 of transaction T1; three later transactions push T1 out of
    the transaction store, and S1 is still listed. *)
Lemma eviction_does_not_cascade_witness :
  let S := {| _id := 1%N; body := orphan_step |} in
  let db' := post_all (map PostTransaction [T2; T3; T4]) db_with_step in
  In S (step_collection db_with_step)
  /\ get_transaction "T1" db_with_step <> HTTPException 404 "Transaction not found"
  /\ get_transaction "T1" db' = HTTPException 404 "Transaction not found"
  /\ In S (find_where (fun d => Step_transaction (body d) =? "T1")%string
             (step_collection db')).
Proof.
  intros S db'.
  assert (HS : In S (step_collection db_with_step))
    by (vm_compute; left; reflexivity).
  split; [|split; [|split]].
  - exact HS.
  - vm_compute. discriminate.
  - vm_compute. reflexivity.
  - exact (proj1 (proj2 (proj2
             (eviction_does_not_cascade [T2; T3; T4] db_with_step S HS)))).
Defined.

(** ** Deleting *)

(** C7.  A collection name other than the four known ones makes
    [delete_entries] answer 400 and leaves the database exactly as it
    was, whatever the number of entries asked for. *)
Theorem delete_unknown_collection
        (number_of_entries : Z) (collection_name : string) (db : DB) :
  collection_name <> "snapshots" ->
  collection_name <> "steps" ->
  collection_name <> "transactions" ->
  collection_name <> "logs" ->
  delete_entries number_of_entries collection_name db
  = (db, HTTPException 400 "Invalid collection name").
Proof.
  intros H1 H2 H3 H4. unfold delete_entries, collections.
  apply String.eqb_neq in H1, H2, H3, H4.
  now rewrite H1, H2, H3, H4.
Qed.

Lemma delete_unknown_collection_witness :
  delete_entries 2 "widgets" full_db
  = (full_db, HTTPException 400 "Invalid collection name").
Proof.
  apply delete_unknown_collection; discriminate.
Defined.

Section DeleteFirst.

Context {A : Type}.



Lemma delete_first_overflow n (c : collection A) :
  2 ^ 63 <= Z.abs n -> delete_first n c = inl OverflowError.
Proof.
  intros Hn. unfold delete_first. now rewrite limit_overflow.
Qed.

End DeleteFirst.


(** C4, at the input where it fails.  Asked to delete 0 entries from a
    log store of five, [delete_entries] deletes all five and says so;
    asked for two, it deletes two and three remain. *)
Theorem delete_zero_entries_of_five_logs :
  count_documents (log_collection five_logs_db) = 5
  /\ delete_entries 0 "logs" five_logs_db
     = (with_logs five_logs_db [],
        Ok "5 entries deleted from logs collection")
  /\ snd (delete_entries 2 "logs" five_logs_db)
     = Ok "2 entries deleted from logs collection"
  /\ count_documents (log_collection (fst (delete_entries 2 "logs" five_logs_db)))
     = 3.
Proof. repeat split; vm_compute; reflexivity. Qed.


(** ** Paging with negative arguments *)

Lemma limit_negative {A : Type} n (cur : list (document A)) :
  - 2 ^ 63 < n < 0 ->
  exists l, limit n cur = inr l /\ Z.of_nat (List.length l) <= - n.
Proof.
  intros Hn. unfold limit.
  destruct (Z.eqb_spec n 0); [lia|].
  assert (H : int64 (Z.abs n) = true) by (apply int64_spec; lia).
  rewrite H. cbn [negb].
  destruct (Z.ltb_spec n 0); [|lia].
  eexists. split; [reflexivity|]. rewrite length_firstn. lia.
Qed.

Lemma skip_in_range {A : Type} n (cur : list (document A)) :
  0 <= n < 2 ^ 63 -> skip n cur = inr (skipn (Z.to_nat n) cur).
Proof.
  intros Hn. unfold skip.
  destruct (Z.ltb_spec n 0) as [Hneg|_]; [lia|].
  assert (Hfits : int64 n = true) by (apply int64_spec; lia).
  now rewrite Hfits.
Qed.

(** C8, as the code has it.  A negative [offset] makes the driver raise
    [ValueError] from [skip], which leaves the handler as an unhandled
    exception; with an [offset] from 0 up to what BSON can hold, a negative
    [count] that BSON can hold is no error at all: the handler answers with
    a sequence of at most [|count|] transactions.  Whatever the arguments,
    the answer is never of the invalid-argument class. *)
Theorem paging_with_negative_arguments (count offset : Z) (db : DB) :
  (offset < 0 ->
   get_all_transactions count offset db
   = Raised (ValueError "skip must be >= 0"))
  /\ (0 <= offset < 2 ^ 63 -> - 2 ^ 63 < count < 0 ->
      exists l, get_all_transactions count offset db = Ok l
                /\ Z.of_nat (List.length l) <= - count)
  /\ ~ invalid_argument (get_all_transactions count offset db).
Proof.
  split; [|split].
  - intros Hneg. unfold get_all_transactions, skip.
    destruct (Z.ltb_spec offset 0); [reflexivity | lia].
  - intros Hoff Hcount. unfold get_all_transactions.
    rewrite skip_in_range by exact Hoff.
    destruct (limit_negative count
                (skipn (Z.to_nat offset) (find (transaction_collection db)))
                Hcount) as (l & -> & Hlen).
    eexists. split; [reflexivity|]. now rewrite !length_map.
  - unfold get_all_transactions.
    intros (code & detail & H & _).
    destruct (skip offset _); [discriminate H|].
    destruct (limit count _); discriminate H.
Qed.

Lemma paging_with_negative_arguments_witness :
  get_all_transactions 10 (-1) three_transactions_db
  = Raised (ValueError "skip must be >= 0")
  /\ exists l, get_all_transactions (-2) 0 three_transactions_db = Ok l
               /\ Z.of_nat (List.length l) <= - (-2).
Proof.
  split.
  - apply (proj1 (paging_with_negative_arguments 10 (-1) three_transactions_db)).
    reflexivity.
  - apply (proj1 (proj2 (paging_with_negative_arguments (-2) 0
                           three_transactions_db))).
    + split; [discriminate | reflexivity].
    + split; reflexivity.
Defined.

(** C8 as stated fails: with [count = -1] and [offset = 0] the handler
    answers with a sequence holding the first transaction, and with
    [offset = -1] the error is not of the invalid-argument class. *)
Lemma negative_count_is_served :
  (exists t, get_all_transactions (-1) 0 three_transactions_db = Ok [t])
  /\ ~ invalid_argument (get_all_transactions (-1) 0 three_transactions_db)
  /\ ~ invalid_argument (get_all_transactions 10 (-1) three_transactions_db).
Proof.
  split; [|split].
  - eexists. vm_compute. reflexivity.
  - intros (code & detail & H & _). vm_compute in H. discriminate H.
  - intros (code & detail & H & _). vm_compute in H. discriminate H.
Qed.

(** ** Duplicate logical ids *)

Section Coexist.

Context {A : Type}.
Variable key : document A -> Z.
Variable cap : Z.
Hypothesis cap_positive : 0 < cap.




End Coexist.





(** * Further properties of the handlers *)

(** ** [mongo_to_dict] *)

(** Induction on values that reaches into lists and dictionaries. *)
Lemma value_nested_ind (P : value -> Prop) :
  P VNone ->
  (forall b, P (VBool b)) ->
  (forall z, P (VInt z)) ->
  (forall s, P (VStr s)) ->
  (forall o, P (VOid o)) ->
  (forall l, Forall P l -> P (VList l)) ->
  (forall d, Forall (fun kv => P (snd kv)) d -> P (VDict d)) ->
  forall v, P v.
Proof.
  intros HNone HBool HInt HStr HOid HList HDict.
  fix IH 1.
  intros [ |b|z|s|o|l|d];
    [apply HNone | apply HBool | apply HInt | apply HStr | apply HOid | | ].
  - apply HList. induction l as [|v l IHl]; constructor; [apply IH | exact IHl].
  - apply HDict.
    induction d as [|[k v] d IHd]; constructor; [apply IH | exact IHd].
Qed.

Lemma mongo_to_dict_no_oid (v : value) : has_oid (mongo_to_dict v) = false.
Proof.
  induction v as [ | | | | |l IH|d IH] using value_nested_ind;
    try reflexivity; cbn [mongo_to_dict has_oid].
  - induction IH as [|v l Hv _ IHl]; simpl; [reflexivity|].
    now rewrite Hv, IHl.
  - induction IH as [|[k v] d Hv _ IHd]; simpl; [reflexivity|].
    simpl in Hv. now rewrite Hv, IHd.
Qed.

(** X1.  Whatever it is given, [mongo_to_dict] returns a value without any
    [ObjectId] in it, at any depth. *)
Theorem mongo_to_dict_removes_object_ids (v : value) :
  has_oid (mongo_to_dict v) = false.
Proof. exact (mongo_to_dict_no_oid v). Qed.

(** X2.  A value without [ObjectId] passes through [mongo_to_dict]
    unchanged: strings, numbers, keys, their order and the nesting are
    all kept. *)
Theorem mongo_to_dict_keeps_plain_values (v : value) :
  has_oid v = false -> mongo_to_dict v = v.
Proof.
  induction v as [ | | | | |l IH|d IH] using value_nested_ind;
    try reflexivity; cbn [mongo_to_dict has_oid]; intros H.
  - discriminate.
  - f_equal. induction IH as [|v l Hv _ IHl]; [reflexivity|].
    simpl in H. apply orb_false_elim in H as [H1 H2].
    simpl. now rewrite Hv, IHl.
  - f_equal. induction IH as [|[k v] d Hv _ IHd]; [reflexivity|].
    simpl in H, Hv. apply orb_false_elim in H as [H1 H2].
    simpl. now rewrite Hv, IHd.
Qed.

Lemma mongo_to_dict_keeps_plain_values_witness :
  mongo_to_dict (VDict (Step_dict orphan_step)) = VDict (Step_dict orphan_step).
Proof.
  apply mongo_to_dict_keeps_plain_values. reflexivity.
Defined.

(** X3.  Converting twice is converting once. *)
Theorem mongo_to_dict_idempotent (v : value) :
  mongo_to_dict (mongo_to_dict v) = mongo_to_dict v.
Proof.
  induction v as [ | | | | |l IH|d IH] using value_nested_ind;
    try reflexivity; cbn [mongo_to_dict]; f_equal.
  - induction IH as [|v l Hv _ IHl]; simpl; [reflexivity|].
    now rewrite Hv, IHl.
  - induction IH as [|[k v] d Hv _ IHd]; simpl; [reflexivity|].
    simpl in Hv. now rewrite Hv, IHd.
Qed.

(** ** What the GET handlers answer *)


Lemma Ok_inj {R : Type} (a b : R) : Ok a = Ok b -> a = b.
Proof. congruence. Qed.



(** X6.  A successful lookup answers a dictionary whose ["id"] is the id
    that was asked for and whose ["_id"] is a string (the object id
    written out); for a transaction it has a ["steps"] list as well. *)
Theorem answers_carry_requested_id (id : string) (db : DB) :
  (forall v, get_snapshot id db = Ok v ->
             exists d o, v = VDict d
                         /\ dict_get d "id" = Some (VStr id)
                         /\ dict_get d "_id" = Some (VStr (ObjectId_str o)))
  /\ (forall v, get_step id db = Ok v ->
                exists d o, v = VDict d
                            /\ dict_get d "id" = Some (VStr id)
                            /\ dict_get d "_id" = Some (VStr (ObjectId_str o)))
  /\ (forall v, get_log id db = Ok v ->
                exists d o, v = VDict d
                            /\ dict_get d "id" = Some (VStr id)
                            /\ dict_get d "_id" = Some (VStr (ObjectId_str o)))
  /\ (forall v, get_transaction id db = Ok v ->
                exists d o l, v = VDict d
                              /\ dict_get d "id" = Some (VStr id)
                              /\ dict_get d "_id" = Some (VStr (ObjectId_str o))
                              /\ dict_get d "steps" = Some (VList l)).
Proof.
  split; [|split; [|split]].
  - intros v. unfold get_snapshot.
    destruct (find_one _ _) as [e|] eqn:E; [|discriminate].
    apply find_one_some in E as [_ Hid]. apply String.eqb_eq in Hid.
    intros H. apply Ok_inj in H. subst v id.
    eexists _, (_id e). repeat split.
  - intros v. unfold get_step.
    destruct (find_one _ _) as [e|] eqn:E; [|discriminate].
    apply find_one_some in E as [_ Hid]. apply String.eqb_eq in Hid.
    intros H. apply Ok_inj in H. subst v id.
    eexists _, (_id e). repeat split.
  - intros v. unfold get_log.
    destruct (find_one _ _) as [e|] eqn:E; [|discriminate].
    apply find_one_some in E as [_ Hid]. apply String.eqb_eq in Hid.
    intros H. apply Ok_inj in H. subst v id.
    eexists _, (_id e). repeat split.
  - intros v.
    destruct (find_one (fun d => Transaction_id (body d) =? id)%string
                (transaction_collection db)) as [e|] eqn:E.
    + rewrite (get_transaction_found _ _ _ E).
      apply find_one_some in E as [_ Hid]. apply String.eqb_eq in Hid.
      intros H. apply Ok_inj in H. subst v id.
      eexists _, (_id e), _. repeat split.
    + unfold get_transaction. rewrite E. discriminate.
Qed.

Lemma answers_carry_requested_id_witness :
  exists d o l,
    get_transaction "T2" three_transactions_db = Ok (VDict d)
    /\ dict_get d "id" = Some (VStr "T2")
    /\ dict_get d "_id" = Some (VStr (ObjectId_str o))
    /\ dict_get d "steps" = Some (VList l).
Proof.
  destruct (proj2 (proj2 (proj2
              (answers_carry_requested_id "T2" three_transactions_db)))
              _ eq_refl) as (d & o & l & Hv & H).
  exists d, o, l. split; [|exact H].
  now rewrite <- Hv.
Defined.

(** ** Transactions with their steps *)

(** X7.  The steps attached to a transaction are as many as the resident
    steps that name it, and each of them is the dictionary of such a
    step: its ["transaction"] is the id asked for and its ["id"] is the
    id of a resident step. *)
Theorem attached_steps_reference_transaction (id : string) (db : DB) :
  List.length (steps_of id db)
  = List.length
      (filter (fun d => Step_transaction (body d) =? id)%string
         (step_collection db))
  /\ forall v,
      In v (steps_of id db) ->
      exists d s,
        v = VDict d
        /\ In s (step_collection db)
        /\ dict_get d "transaction" = Some (VStr id)
        /\ dict_get d "id" = Some (VStr (Step_id (body s))).
Proof.
  unfold steps_of, find_where. split; [apply length_map|].
  intros v Hv. apply in_map_iff in Hv as (s & <- & Hs).
  apply filter_In in Hs as [Hin Hid]. apply String.eqb_eq in Hid.
  eexists _, s. subst id. repeat split. exact Hin.
Qed.

Lemma attached_steps_reference_transaction_witness :
  exists v d s,
    In v (steps_of "T1" db_with_step)
    /\ v = VDict d
    /\ In s (step_collection db_with_step)
    /\ dict_get d "transaction" = Some (VStr "T1")
    /\ dict_get d "id" = Some (VStr (Step_id (body s))).
Proof.
  assert (Hv : In (mongo_to_dict
                     (VDict (Step_doc {| _id := 1%N; body := orphan_step |})))
                 (steps_of "T1" db_with_step))
    by (vm_compute; left; reflexivity).
  destruct (proj2 (attached_steps_reference_transaction "T1" db_with_step)
              _ Hv) as (d & s & H).
  eexists _, d, s. split; [exact Hv | exact H].
Defined.

(** ** Lookups and listings agree *)

(** X18.  Whatever a snapshot lookup answers, by id or by transaction, is
    an entry of the listing of all snapshots, and the listing has one
    entry per resident snapshot. *)
Theorem snapshot_answers_are_listed (db : DB) :
  exists all,
    get_all_snapshots db = Ok all
    /\ List.length all = List.length (snapshot_collection db)
    /\ (forall id v, get_snapshot id db = Ok v -> In v all)
    /\ (forall id l, get_snapshots_for_transaction id db = Ok l ->
                     forall v, In v l -> In v all).
Proof.
  eexists. split; [reflexivity|]. unfold find. split; [apply length_map|].
  split.
  - intros id v. unfold get_snapshot.
    destruct (find_one _ _) as [e|] eqn:E; [|discriminate].
    apply find_one_some in E as [Hin _].
    intros H. apply Ok_inj in H. rewrite <- H.
    apply (in_map (fun snapshot => mongo_to_dict (VDict (Snapshot_doc snapshot)))),
      Hin.
  - intros id l. unfold get_snapshots_for_transaction, find_where.
    destruct (filter _ _) as [|e m] eqn:E; [discriminate|].
    intros H v Hv. apply Ok_inj in H. rewrite <- H in Hv.
    apply in_map_iff in Hv as (s & <- & Hs).
    apply (in_map (fun snapshot => mongo_to_dict (VDict (Snapshot_doc snapshot)))).
    assert (Hs' : In s (filter
                          (fun d => Snapshot_transaction (body d) =? id)%string
                          (snapshot_collection db))) by (rewrite E; exact Hs).
    now apply filter_In in Hs'.
Qed.

Lemma snapshot_answers_are_listed_witness :
  exists all v,
    get_all_snapshots full_db = Ok all
    /\ get_snapshot "7" full_db = Ok v
    /\ In v all.
Proof.
  destruct (snapshot_answers_are_listed full_db) as (all & Hall & _ & Hone & _).
  exists all. eexists. split; [exact Hall|].
  assert (Hv : get_snapshot "7" full_db
               = Ok (mongo_to_dict
                       (VDict (Snapshot_doc
                                 {| _id := 7%N;
                                    body := sample_snapshot "7" "T1" 7 |}))))
    by (vm_compute; reflexivity).
  split; [exact Hv | exact (Hone "7" _ Hv)].
Defined.


(** ** Insert, then look up *)

Lemma filter_none {A : Type} (f : A -> bool) (l : list A) :
  (forall x, In x l -> f x = false) -> filter f l = [].
Proof.
  induction l as [|x l IH]; simpl; intros H; [reflexivity|].
  rewrite (H x) by now left. apply IH. intros y Hy. apply H. now right.
Qed.

Lemma find_one_fresh {A : Type} (key : document A -> Z) (cap chunk : Z)
      (f : document A -> bool) (doc : document A) (c : collection A) :
  (forall d, In d c -> f d = false) ->
  f doc = true ->
  find_one f (evict key cap chunk c ++ [doc])%list = Some doc.
Proof.
  intros Hold Hnew. unfold find_one, find_where.
  rewrite filter_app, filter_none.
  - simpl. now rewrite Hnew.
  - intros d Hd. apply Hold. now apply evict_subset in Hd.
Qed.

(** X5.  When a record is inserted under an id that no resident document
    of its store has and the handler answers 200, the record is what the
    lookup by that id answers right afterwards, with the [_id] the insert
    gave it, whether or not the insert had to evict; for a transaction the
    answer also lists its resident steps. *)
Theorem lookup_after_insert (db : DB) :
  (forall snapshot,
      (forall d, In d (snapshot_collection db) ->
                 Snapshot_id (body d) <> Snapshot_id snapshot) ->
      snd (create_snapshot snapshot db) = Ok ("Snapshot saved", snapshot) ->
      get_snapshot (Snapshot_id snapshot) (fst (create_snapshot snapshot db))
      = Ok (mongo_to_dict
              (VDict (Snapshot_doc {| _id := next_oid db; body := snapshot |}))))
  /\ (forall step,
         (forall d, In d (step_collection db) ->
                    Step_id (body d) <> Step_id step) ->
         snd (create_step step db) = Ok ("Step saved", step) ->
         get_step (Step_id step) (fst (create_step step db))
         = Ok (mongo_to_dict
                 (VDict (Step_doc {| _id := next_oid db; body := step |}))))
  /\ (forall transaction,
         (forall d, In d (transaction_collection db) ->
                    Transaction_id (body d) <> Transaction_id transaction) ->
         snd (create_transaction transaction db)
         = Ok ("Transaction saved", transaction) ->
         get_transaction (Transaction_id transaction)
           (fst (create_transaction transaction db))
         = Ok (VDict
                 (jsonable (Transaction_doc
                              {| _id := next_oid db; body := transaction |})
                  ++ [("steps",
                       VList (steps_of (Transaction_id transaction) db))])%list))
  /\ (forall log,
         (forall d, In d (log_collection db) -> Log_id (body d) <> Log_id log) ->
         snd (create_log log db) = Ok ("Log saved", log) ->
         get_log (Log_id log) (fst (create_log log db))
         = Ok (mongo_to_dict
                 (VDict (Log_doc {| _id := next_oid db; body := log |})))).
Proof.
  split; [|split; [|split]].
  - intros snapshot Hfresh Hok. unfold get_snapshot.
    rewrite create_snapshot_effect. cbn [snapshot_collection].
    rewrite (inserted_ok _ _ _ Hok).
    rewrite find_one_fresh; [reflexivity | | apply String.eqb_refl].
    intros d Hd. now apply String.eqb_neq, Hfresh.
  - intros step Hfresh Hok. unfold get_step.
    rewrite create_step_effect. cbn [step_collection].
    rewrite (inserted_ok _ _ _ Hok).
    rewrite find_one_fresh; [reflexivity | | apply String.eqb_refl].
    intros d Hd. now apply String.eqb_neq, Hfresh.
  - intros transaction Hfresh Hok.
    rewrite (get_transaction_found _ _
               {| _id := next_oid db; body := transaction |}).
    + rewrite create_transaction_effect. reflexivity.
    + rewrite create_transaction_effect. cbn [transaction_collection].
      rewrite (inserted_ok _ _ _ Hok).
      rewrite find_one_fresh; [reflexivity | | apply String.eqb_refl].
      intros d Hd. now apply String.eqb_neq, Hfresh.
  - intros log Hfresh Hok. unfold get_log.
    rewrite create_log_effect. cbn [log_collection].
    rewrite (inserted_ok _ _ _ Hok).
    rewrite find_one_fresh; [reflexivity | | apply String.eqb_refl].
    intros d Hd. now apply String.eqb_neq, Hfresh.
Qed.

(** T4 is new to the full transaction store; inserting it evicts T1 and
    the lookup answers T4. *)
Lemma lookup_after_insert_witness :
  get_transaction "T4" three_transactions_db
  = HTTPException 404 "Transaction not found"
  /\ snd (create_transaction T4 three_transactions_db)
     = Ok ("Transaction saved", T4)
  /\ get_transaction "T4" (fst (create_transaction T4 three_transactions_db))
     = Ok (VDict
             (jsonable (Transaction_doc
                          {| _id := next_oid three_transactions_db;
                             body := T4 |})
              ++ [("steps", VList (steps_of "T4" three_transactions_db))])%list).
Proof.
  split; [reflexivity|]. split; [reflexivity|].
  apply (proj1 (proj2 (proj2 (lookup_after_insert three_transactions_db))) T4);
    [|reflexivity].
  apply Forall_forall. vm_compute.
  repeat (constructor; [discriminate|]). constructor.
Defined.

(** ** The transaction listing *)

Lemma firstn_subset {A : Type} n (l : list A) x : In x (firstn n l) -> In x l.
Proof.
  intros H. rewrite <- (firstn_skipn n l). apply in_or_app. now left.
Qed.

Lemma skipn_subset {A : Type} n (l : list A) x : In x (skipn n l) -> In x l.
Proof.
  intros H. rewrite <- (firstn_skipn n l). apply in_or_app. now right.
Qed.

Lemma limit_subset {A : Type} n (cur l : list (document A)) x :
  limit n cur = inr l -> In x l -> In x cur.
Proof.
  unfold limit. destruct (n =? 0); [now intros [= <-]|].
  destruct (negb (int64 (Z.abs n))); [discriminate|].
  destruct (n <? 0); intros [= <-]; apply firstn_subset.
Qed.

Lemma skip_subset {A : Type} n (cur l : list (document A)) x :
  skip n cur = inr l -> In x l -> In x cur.
Proof.
  unfold skip. destruct (n <? 0); [discriminate|].
  destruct (negb (int64 n)); [discriminate|].
  intros [= <-]. apply skipn_subset.
Qed.

Lemma get_all_transactions_page count offset db page :
  0 <= offset < 2 ^ 63 ->
  limit count (skipn (Z.to_nat offset) (transaction_collection db)) = inr page ->
  get_all_transactions count offset db = Ok (map (listed db) page).
Proof.
  intros Hoff Hpage. unfold get_all_transactions, find.
  rewrite skip_in_range by exact Hoff. rewrite Hpage.
  now rewrite map_map.
Qed.

(** X8.  Every entry of the transaction listing is a resident transaction
    with its steps attached, and it is exactly what the lookup of that
    transaction by id answers, provided the lookup finds that document
    (it is the first resident one with its id). *)
Theorem listing_agrees_with_lookup
        (count offset : Z) (db : DB) (l : list value) :
  get_all_transactions count offset db = Ok l ->
  forall v,
    In v l ->
    exists t,
      In t (transaction_collection db)
      /\ v = listed db t
      /\ (find_one
            (fun d => Transaction_id (body d) =? Transaction_id (body t))%string
            (transaction_collection db) = Some t ->
          get_transaction (Transaction_id (body t)) db = Ok v).
Proof.
  intros H v Hv. unfold get_all_transactions, find in H.
  destruct (skip offset (transaction_collection db)) as [e|cur] eqn:Hskip;
    [discriminate|].
  destruct (limit count cur) as [e|page] eqn:Hlimit; [discriminate|].
  apply Ok_inj in H. subst l. rewrite map_map in Hv.
  apply in_map_iff in Hv as (t & <- & Ht).
  apply (limit_subset _ _ _ _ Hlimit), (skip_subset _ _ _ _ Hskip) in Ht.
  exists t. repeat split; [exact Ht|].
  intros Hfind. unfold get_transaction. now rewrite Hfind.
Qed.

Lemma listing_agrees_with_lookup_witness :
  let db := three_transactions_db in
  let v := listed db {| _id := 0%N; body := T1 |} in
  get_all_transactions 10 0 db
  = Ok (map (listed db) (transaction_collection db))
  /\ In v (map (listed db) (transaction_collection db))
  /\ exists t,
      In t (transaction_collection db)
      /\ v = listed db t
      /\ (find_one
            (fun d => Transaction_id (body d) =? Transaction_id (body t))%string
            (transaction_collection db) = Some t ->
          get_transaction (Transaction_id (body t)) db = Ok v).
Proof.
  intros db v.
  assert (Hl : get_all_transactions 10 0 db
               = Ok (map (listed db) (transaction_collection db)))
    by reflexivity.
  assert (Hv : In v (map (listed db) (transaction_collection db)))
    by (left; reflexivity).
  split; [exact Hl|]. split; [exact Hv|].
  exact (listing_agrees_with_lookup 10 0 db _ Hl v Hv).
Defined.

(** X9.  With [offset] and [count] from 0 up to what BSON can hold, the
    listing does not fail: it answers the transactions from position
    [offset] on, in store order, at most [count] of them, or all of them
    when [count] is 0; an offset past the end gives the empty list. *)
Theorem paging_window (count offset : Z) (db : DB) :
  0 <= offset < 2 ^ 63 ->
  0 <= count < 2 ^ 63 ->
  let rest := skipn (Z.to_nat offset) (transaction_collection db) in
  let page := if count =? 0 then rest else firstn (Z.to_nat count) rest in
  let left := Z.max 0 (count_documents (transaction_collection db) - offset) in
  get_all_transactions count offset db = Ok (map (listed db) page)
  /\ Z.of_nat (List.length page)
     = (if count =? 0 then left else Z.min count left)
  /\ (count_documents (transaction_collection db) <= offset -> page = []).
Proof.
  intros Hoff Hcount rest page left.
  assert (Hrest : Z.of_nat (List.length rest) = left).
  { unfold rest, left, count_documents. rewrite length_skipn. lia. }
  assert (Hpage : limit count rest = inr page).
  { unfold page. destruct (Z.eqb_spec count 0) as [->|Hne]; [reflexivity|].
    apply limit_positive. lia. }
  split; [|split].
  - now apply get_all_transactions_page.
  - unfold page. destruct (count =? 0); [exact Hrest|].
    rewrite length_firstn. lia.
  - intros Hpast.
    assert (Hnil : rest = []).
    { apply length_zero_iff_nil. unfold left in Hrest. lia. }
    unfold page. rewrite Hnil. destruct (count =? 0); [reflexivity|].
    apply firstn_nil.
Qed.

Lemma paging_window_witness :
  get_all_transactions 1 1 three_transactions_db
  = Ok [listed three_transactions_db {| _id := 1%N; body := T2 |}]
  /\ get_all_transactions 0 1 three_transactions_db
     = Ok [listed three_transactions_db {| _id := 1%N; body := T2 |};
           listed three_transactions_db {| _id := 2%N; body := T3 |}]
  /\ get_all_transactions 10 7 three_transactions_db = Ok [].
Proof.
  split; [|split].
  - apply (proj1 (paging_window 1 1 three_transactions_db
                    ltac:(split; [discriminate | reflexivity])
                    ltac:(split; [discriminate | reflexivity]))).
  - apply (proj1 (paging_window 0 1 three_transactions_db
                    ltac:(split; [discriminate | reflexivity])
                    ltac:(split; [discriminate | reflexivity]))).
  - apply (proj1 (paging_window 10 7 three_transactions_db
                    ltac:(split; [discriminate | reflexivity])
                    ltac:(split; [discriminate | reflexivity]))).
Defined.

(** ** Deleting, in general *)



Lemma limit_in_range {A : Type} n (cur : list (document A)) :
  Z.abs n < 2 ^ 63 -> exists l, limit n cur = inr l.
Proof.
  intros Hn. unfold limit.
  destruct (n =? 0); [eauto|].
  assert (H : int64 (Z.abs n) = true) by (apply int64_spec; lia).
  rewrite H. cbn [negb]. destruct (n <? 0); eauto.
Qed.

(** Reading the cursor of [delete_first] either overflows, and then
    nothing is deleted, or some documents go and their number is
    reported. *)
Lemma delete_first_cases {A : Type} n (c : collection A) :
  (2 ^ 63 <= Z.abs n /\ delete_first n c = inl OverflowError)
  \/ (Z.abs n < 2 ^ 63
      /\ exists c',
          delete_first n c
          = inr (c', count_documents c - count_documents c')
          /\ (forall d, In d c' -> In d c)
          /\ count_documents c' <= count_documents c
          /\ (NoDup (map _id c) -> NoDup (map _id c'))).
Proof.
  destruct (Z.le_gt_cases (2 ^ 63) (Z.abs n)) as [Hov|Hin].
  - left. split; [exact Hov | now apply delete_first_overflow].
  - right. split; [lia|].
    destruct (limit_in_range n (find c)) as [l Hl]; [lia|].
    destruct (delete_first n c) as [e|[c' k]] eqn:D.
    + unfold delete_first in D. rewrite Hl in D. discriminate.
    + apply delete_first_fst in D as (ids & -> & ->).
      eexists. split; [reflexivity|]. split; [|split].
      * intros d Hd. now apply filter_In in Hd.
      * unfold count_documents. apply Nat2Z.inj_le, filter_length_le.
      * apply NoDup_ids_filter.
Qed.




(** ** Databases the service can reach *)

Lemma wf_serve db q : wf_db db = true -> wf_db (serve db q) = true.
Proof.
  destruct q; cbn [serve]; [apply wf_post | apply wf_delete_entries].
Qed.

Lemma wf_serve_all qs db :
  wf_db db = true -> wf_db (serve_all qs db) = true.
Proof.
  unfold serve_all. revert db.
  induction qs as [|q qs IH]; cbn [fold_left]; intros db H; [exact H|].
  apply IH, wf_serve, H.
Qed.

Lemma delete_entries_capacity n name db :
  within_capacity db -> within_capacity (fst (delete_entries n name db)).
Proof.
  intros (H1 & H2 & H3 & H4).
  destruct (collections name) as [h|] eqn:Hname.
  - pose proof (delete_entries_effect n name h db Hname) as Heff.
    destruct h;
      match type of Heff with
      | context [delete_first n ?c] =>
          destruct (delete_first_cases n c)
            as [[Hov D]|[Hin (c' & D & Hsub & Hle & Hnd)]];
          rewrite D in Heff; rewrite Heff; cbn [fst];
          repeat split; cbn; try assumption; lia
      end.
  - unfold delete_entries. rewrite Hname. now repeat split.
Qed.

Lemma serve_capacity db q : within_capacity db -> within_capacity (serve db q).
Proof.
  intros H. destruct q as [r|n name]; cbn [serve].
  - now apply post_all_capacity_step.
  - now apply delete_entries_capacity.
Qed.

Lemma serve_all_capacity qs db :
  within_capacity db -> within_capacity (serve_all qs db).
Proof.
  unfold serve_all. revert db.
  induction qs as [|q qs IH]; cbn [fold_left]; intros db H; [exact H|].
  apply IH, serve_capacity, H.
Qed.

(** X12.  Starting from the empty database, whatever object ids the
    driver generates and whatever it refuses, after any sequence of
    inserts and deletes run one after the other: in every store the
    object ids are pairwise distinct, and no store holds more than its
    maximum. *)
Theorem reachable_databases_are_sound
        (ids : nat -> ObjectId) (refuses : dict -> option exn)
        (qs : list request) (h : handle) :
  let db := serve_all qs (empty_db_with ids refuses) in
  NoDup (ids_of h db) /\ occupancy h db <= capacity h.
Proof.
  intros db.
  assert (Hwf : wf_db db = true)
    by (apply wf_serve_all, wf_empty_db_with).
  assert (Hcap : within_capacity db)
    by (apply serve_all_capacity; repeat split; discriminate).
  apply wf_db_parts in Hwf as (W1 & W2 & W3 & W4).
  destruct Hcap as (C1 & C2 & C3 & C4).
  destruct h; cbn [ids_of occupancy capacity]; split; assumption.
Qed.

(** ** Occupancy *)

Lemma evict_count {A : Type} (key : document A -> Z) (cap : Z)
      (c : collection A) :
  NoDup (map _id c) ->
  0 < cap ->
  count_documents (evict key cap 1 c)
  = if count_documents c >=? cap
    then count_documents c - 1 else count_documents c.
Proof.
  intros Hnd Hcap.
  destruct (Z.geb_spec (count_documents c) cap) as [Hfull|Hroom].
  - rewrite (evict_full key cap 1 c Hfull).
    destruct (evict_split key 1 c Hnd) as (Hperm & Hlen & _); [lia|].
    apply Permutation_length in Hperm.
    rewrite length_app in Hperm. unfold count_documents in *. lia.
  - now rewrite evict_room.
Qed.

Lemma post_occupancy (h : handle) (db : DB) (r : insert_request) :
  wf_db db = true ->
  answered_ok db r = true ->
  occupancy h (post db r)
  = if targets h r
    then (if occupancy h db >=? capacity h
          then occupancy h db else occupancy h db + 1)
    else occupancy h db.
Proof.
  intros (W1 & W2 & W3 & W4)%wf_db_parts Hok.
  destruct r; cbn [post answered_ok] in *;
    apply is_ok_Ok in Hok as [a Hok];
    [rewrite create_snapshot_effect | rewrite create_step_effect
    | rewrite create_transaction_effect | rewrite create_log_effect];
    destruct h;
    cbn [occupancy targets capacity snapshot_collection step_collection
         transaction_collection log_collection];
    try reflexivity;
    rewrite (inserted_ok _ _ _ Hok), count_documents_snoc,
      evict_count by (assumption || reflexivity);
    match goal with
    | |- context [?x >=? ?y] => destruct (x >=? y); lia
    end.
Qed.

Lemma accepted_cons r rs db :
  accepted (r :: rs) db = true ->
  answered_ok db r = true /\ accepted rs (post db r) = true.
Proof. cbn [accepted]. apply andb_prop. Qed.

(** X13.  In a database with distinct object ids, a run of inserts that
    were all answered with status 200 raises the occupancy of a store by
    the number of inserts that went to it, up to the maximum and no
    further; a store that already holds its maximum or more keeps the
    number of documents it has, each insert replacing one. *)
Theorem occupancy_after_inserts
        (h : handle) (rs : list insert_request) (db : DB) :
  wf_db db = true ->
  accepted rs db = true ->
  occupancy h (post_all rs db)
  = if occupancy h db >=? capacity h
    then occupancy h db
    else Z.min (capacity h)
           (occupancy h db
            + Z.of_nat (List.length (filter (targets h) rs))).
Proof.
  unfold post_all. revert db.
  induction rs as [|r rs IH]; cbn [fold_left filter]; intros db Hwf Hacc.
  - simpl. destruct (Z.geb_spec (occupancy h db) (capacity h)); lia.
  - apply accepted_cons in Hacc as [Hok Hacc].
    rewrite (IH (post db r) (wf_post db r Hwf) Hacc).
    rewrite (post_occupancy h db r Hwf Hok).
    destruct (targets h r); cbn [List.length].
    + destruct (Z.geb_spec (occupancy h db) (capacity h)) as [Hfull|Hroom].
      * destruct (Z.geb_spec (occupancy h db) (capacity h)); lia.
      * destruct (Z.geb_spec (occupancy h db + 1) (capacity h)); lia.
    + reflexivity.
Qed.

(** Five transactions into the empty database: three are resident. *)
Lemma occupancy_after_inserts_witness :
  let rs := [PostTransaction T1; PostTransaction T2; PostLog (sample_log "l");
             PostTransaction T3; PostTransaction T4;
             PostTransaction T1_again] in
  accepted rs empty_db = true
  /\ occupancy Transactions (post_all rs empty_db) = 3.
Proof.
  intros rs.
  assert (Hacc : accepted rs empty_db = true) by (vm_compute; reflexivity).
  split; [exact Hacc|].
  rewrite (occupancy_after_inserts Transactions rs empty_db wf_empty_db Hacc).
  reflexivity.
Defined.

(** X14.  An insert into a store below its maximum evicts nothing: the
    store afterwards is the store before, followed by the new document
    under the object id drawn for it when the handler answered 200, and
    by nothing when an exception escaped. *)
Theorem insert_with_room_appends (db : DB) :
  (forall snapshot,
      count_documents (snapshot_collection db) < max_size_snapshots_collection ->
      snapshot_collection (fst (create_snapshot snapshot db))
      = (snapshot_collection db
         ++ inserted (snd (create_snapshot snapshot db))
              {| _id := next_oid db; body := snapshot |})%list)
  /\ (forall step,
         count_documents (step_collection db) < max_size_steps_collection ->
         step_collection (fst (create_step step db))
         = (step_collection db
            ++ inserted (snd (create_step step db))
                 {| _id := next_oid db; body := step |})%list)
  /\ (forall transaction,
         count_documents (transaction_collection db)
         < max_size_transactions_collection ->
         transaction_collection (fst (create_transaction transaction db))
         = (transaction_collection db
            ++ inserted (snd (create_transaction transaction db))
                 {| _id := next_oid db; body := transaction |})%list)
  /\ (forall log,
         count_documents (log_collection db) < max_size_log_collection ->
         log_collection (fst (create_log log db))
         = (log_collection db
            ++ inserted (snd (create_log log db))
                 {| _id := next_oid db; body := log |})%list).
Proof.
  split; [|split; [|split]].
  - intros snapshot Hroom. rewrite create_snapshot_effect.
    cbn [snapshot_collection]. now rewrite evict_room.
  - intros step Hroom. rewrite create_step_effect.
    cbn [step_collection]. now rewrite evict_room.
  - intros transaction Hroom. rewrite create_transaction_effect.
    cbn [transaction_collection]. now rewrite evict_room.
  - intros log Hroom. rewrite create_log_effect.
    cbn [log_collection]. now rewrite evict_room.
Qed.

(** T2 is appended to the one transaction of [db_with_step]; a
    transaction BSON cannot hold leaves the store as it was. *)
Lemma insert_with_room_appends_witness :
  transaction_collection (fst (create_transaction T2 db_with_step))
  = (transaction_collection db_with_step
     ++ [{| _id := next_oid db_with_step; body := T2 |}])%list
  /\ transaction_collection (fst (create_transaction T_late db_with_step))
     = transaction_collection db_with_step.
Proof.
  destruct (insert_with_room_appends db_with_step) as (_ & _ & Htx & _).
  split.
  - apply (Htx T2). reflexivity.
  - rewrite (Htx T_late) by reflexivity. apply app_nil_r.
Defined.

(** ** Which document goes *)

Lemma evicts_unique_minimum {A : Type} (key : document A -> Z) (cap : Z)
      (c : collection A) (x : document A) :
  NoDup (map _id c) ->
  0 < cap ->
  cap <= count_documents c ->
  In x c ->
  (forall y, In y c -> y <> x -> key x < key y) ->
  ~ In x (evict key cap 1 c)
  /\ forall y, In y c -> y <> x -> In y (evict key cap 1 c).
Proof.
  intros Hnd Hcap Hfull Hx Hmin.
  rewrite (evict_full key cap 1 c Hfull).
  destruct (evict_split key 1 c Hnd) as (Hperm & Hlen & Hle); [lia|].
  cbv zeta in Hperm, Hlen, Hle.
  set (ev := firstn (Z.to_nat 1) (sort key c)) in *.
  set (kept := fst (delete_many (map _id ev) c)) in *.
  destruct ev as [|e [|e' ev]]; simpl in Hlen; try lia.
  assert (Hdocs : NoDup (e :: kept)).
  { apply NoDup_map_inv in Hnd. exact (Permutation_NoDup Hperm Hnd). }
  assert (He : e = x).
  { assert (Hec : In e c)
      by (eapply Permutation_in; [apply Permutation_sym, Hperm | now left]).
    destruct (Permutation_in _ Hperm Hx) as [Heq|Hkept]; [exact Heq|].
    specialize (Hle e x (or_introl eq_refl) Hkept).
    assert (Hne : e <> x).
    { intros ->. inversion Hdocs as [|? ? Hnotin _]; subst. now apply Hnotin. }
    specialize (Hmin e Hec Hne). lia. }
  subst e. split.
  - inversion Hdocs as [|? ? Hnotin _]; subst. exact Hnotin.
  - intros y Hy Hne.
    destruct (Permutation_in _ Hperm Hy) as [Heq|Hkept]; [|exact Hkept].
    now destruct Hne.
Qed.

Lemma not_in_inserted {R A : Type} (r : response R) (doc x : document A) :
  _id x <> _id doc -> ~ In x (inserted r doc).
Proof.
  intros Hne. unfold inserted. destruct (is_ok r); [|intros []].
  intros [<-|[]]. now apply Hne.
Qed.

(** X15.  When a full store of snapshots, steps or transactions with
    distinct object ids holds one document whose time stamp is strictly
    the earliest, an insert (under an object id no resident document has)
    evicts that document and no other, wherever it stands in the order of
    arrival. *)
Theorem earliest_document_is_evicted (db : DB) (Hwf : wf_db db = true) :
  (forall snapshot x,
      ~ In (next_oid db) (map _id (snapshot_collection db)) ->
      max_size_snapshots_collection
      <= count_documents (snapshot_collection db) ->
      In x (snapshot_collection db) ->
      (forall y, In y (snapshot_collection db) -> y <> x ->
                 Snapshot_createdAt (body x) < Snapshot_createdAt (body y)) ->
      ~ In x (snapshot_collection (fst (create_snapshot snapshot db)))
      /\ forall y, In y (snapshot_collection db) -> y <> x ->
                   In y (snapshot_collection (fst (create_snapshot snapshot db))))
  /\ (forall step x,
         ~ In (next_oid db) (map _id (step_collection db)) ->
         max_size_steps_collection <= count_documents (step_collection db) ->
         In x (step_collection db) ->
         (forall y, In y (step_collection db) -> y <> x ->
                    Step_createdAt (body x) < Step_createdAt (body y)) ->
         ~ In x (step_collection (fst (create_step step db)))
         /\ forall y, In y (step_collection db) -> y <> x ->
                      In y (step_collection (fst (create_step step db))))
  /\ (forall transaction x,
         ~ In (next_oid db) (map _id (transaction_collection db)) ->
         max_size_transactions_collection
         <= count_documents (transaction_collection db) ->
         In x (transaction_collection db) ->
         (forall y, In y (transaction_collection db) -> y <> x ->
                    start (body x) < start (body y)) ->
         ~ In x (transaction_collection
                   (fst (create_transaction transaction db)))
         /\ forall y, In y (transaction_collection db) -> y <> x ->
                      In y (transaction_collection
                              (fst (create_transaction transaction db)))).
Proof.
  apply wf_db_parts in Hwf as (W1 & W2 & W3 & _).
  split; [|split].
  - intros snapshot x Hfresh Hfull Hx Hmin. rewrite create_snapshot_effect.
    cbn [snapshot_collection].
    destruct (evicts_unique_minimum
                (fun entry => Snapshot_createdAt (body entry))
                max_size_snapshots_collection _ x W1 eq_refl Hfull Hx Hmin)
      as [Hgone Hstay].
    split.
    + intros Hin. apply in_app_or in Hin as [Hin|Hin]; [now apply Hgone|].
      revert Hin. apply not_in_inserted. intros Heq. apply Hfresh.
      cbn [_id] in Heq. rewrite <- Heq. now apply in_map.
    + intros y Hy Hne. apply in_or_app. left. now apply Hstay.
  - intros step x Hfresh Hfull Hx Hmin. rewrite create_step_effect.
    cbn [step_collection].
    destruct (evicts_unique_minimum
                (fun entry => Step_createdAt (body entry))
                max_size_steps_collection _ x W2 eq_refl Hfull Hx Hmin)
      as [Hgone Hstay].
    split.
    + intros Hin. apply in_app_or in Hin as [Hin|Hin]; [now apply Hgone|].
      revert Hin. apply not_in_inserted. intros Heq. apply Hfresh.
      cbn [_id] in Heq. rewrite <- Heq. now apply in_map.
    + intros y Hy Hne. apply in_or_app. left. now apply Hstay.
  - intros transaction x Hfresh Hfull Hx Hmin.
    rewrite create_transaction_effect. cbn [transaction_collection].
    destruct (evicts_unique_minimum
                (fun entry => start (body entry))
                max_size_transactions_collection _ x W3 eq_refl Hfull Hx Hmin)
      as [Hgone Hstay].
    split.
    + intros Hin. apply in_app_or in Hin as [Hin|Hin]; [now apply Hgone|].
      revert Hin. apply not_in_inserted. intros Heq. apply Hfresh.
      cbn [_id] in Heq. rewrite <- Heq. now apply in_map.
    + intros y Hy Hne. apply in_or_app. left. now apply Hstay.
Qed.

(** T3, T1, T2 arrived in this order; inserting T4 evicts T1, the second
    arrival, because its [start] is the earliest. *)
Lemma earliest_document_is_evicted_witness :
  let x := {| _id := 1%N; body := T1 |} in
  wf_db out_of_order_db = true
  /\ map body (transaction_collection out_of_order_db) = [T3; T1; T2]
  /\ ~ In x (transaction_collection (fst (create_transaction T4 out_of_order_db)))
  /\ In {| _id := 0%N; body := T3 |}
       (transaction_collection (fst (create_transaction T4 out_of_order_db))).
Proof.
  intros x.
  assert (Hwf : wf_db out_of_order_db = true) by reflexivity.
  assert (Hx : In x (transaction_collection out_of_order_db))
    by (right; left; reflexivity).
  assert (Hmin : forall y, In y (transaction_collection out_of_order_db) ->
                           y <> x -> start (body x) < start (body y)).
  { intros y [<-|[<-|[<-|[]]]] Hne;
      [reflexivity | now destruct Hne | reflexivity]. }
  assert (Hfresh : ~ In (next_oid out_of_order_db)
                     (map _id (transaction_collection out_of_order_db))).
  { intros [H|[H|[H|[]]]]; discriminate H. }
  destruct (proj2 (proj2 (earliest_document_is_evicted out_of_order_db Hwf))
              T4 x Hfresh ltac:(discriminate) Hx Hmin) as [Hgone Hstay].
  split; [exact Hwf|]. split; [reflexivity|]. split; [exact Hgone|].
  apply Hstay; [left; reflexivity | discriminate].
Defined.

(** ** Stores are independent *)

Lemma post_driver db r :
  object_ids (post db r) = object_ids db
  /\ drawn (post db r) = S (drawn db)
  /\ refusal (post db r) = refusal db.
Proof.
  destruct r; cbn [post];
    [rewrite create_snapshot_effect | rewrite create_step_effect
    | rewrite create_transaction_effect | rewrite create_log_effect];
    now repeat split.
Qed.

Lemma post_other_store db r :
  (targets Snapshots r = false ->
   snapshot_collection (post db r) = snapshot_collection db)
  /\ (targets Steps r = false ->
      step_collection (post db r) = step_collection db)
  /\ (targets Transactions r = false ->
      transaction_collection (post db r) = transaction_collection db)
  /\ (targets Logs r = false -> log_collection (post db r) = log_collection db).
Proof.
  destruct r; cbn [post targets];
    [rewrite create_snapshot_effect | rewrite create_step_effect
    | rewrite create_transaction_effect | rewrite create_log_effect];
    repeat split; intros H; (reflexivity || discriminate H).
Qed.

(** X17.  A run of inserts leaves a store exactly as it was if none of
    the inserts was for that store, however full the other stores were
    and whatever they evicted; and it draws one object id per insert, so
    that the next id is the one that many places further in the driver's
    sequence. *)
Theorem inserts_touch_their_own_store (rs : list insert_request) (db : DB) :
  (forallb (fun r => negb (targets Snapshots r)) rs = true ->
   snapshot_collection (post_all rs db) = snapshot_collection db)
  /\ (forallb (fun r => negb (targets Steps r)) rs = true ->
      step_collection (post_all rs db) = step_collection db)
  /\ (forallb (fun r => negb (targets Transactions r)) rs = true ->
      transaction_collection (post_all rs db) = transaction_collection db)
  /\ (forallb (fun r => negb (targets Logs r)) rs = true ->
      log_collection (post_all rs db) = log_collection db)
  /\ next_oid (post_all rs db)
     = object_ids db (drawn db + List.length rs)%nat.
Proof.
  unfold post_all. revert db.
  induction rs as [|r rs IH]; cbn [fold_left forallb List.length]; intros db.
  - repeat split. unfold next_oid. now rewrite Nat.add_0_r.
  - destruct (IH (post db r)) as (I1 & I2 & I3 & I4 & I5).
    destruct (post_other_store db r) as (P1 & P2 & P3 & P4).
    destruct (post_driver db r) as (D1 & D2 & _).
    rewrite I5, D1, D2.
    repeat split;
      try (intros [Hr Hrs]%andb_prop; apply negb_true_iff in Hr).
    + now rewrite I1, P1.
    + now rewrite I2, P2.
    + now rewrite I3, P3.
    + now rewrite I4, P4.
    + f_equal. lia.
Qed.

(** A hundred and three inserts elsewhere leave the transaction store of
    [three_transactions_db] alone. *)
Lemma inserts_touch_their_own_store_witness :
  let rs := (map (fun i => PostLog (sample_log (str (Z.of_nat i)))) (seq 0 53)
             ++ map (fun i => PostStep
                                (sample_step (str (Z.of_nat i)) "T1"
                                   (Z.of_nat i)))
                  (seq 0 50))%list in
  transaction_collection (post_all rs three_transactions_db)
  = transaction_collection three_transactions_db.
Proof.
  intros rs.
  apply (proj1 (proj2 (proj2
           (inserts_touch_their_own_store rs three_transactions_db)))).
  vm_compute. reflexivity.
Defined.

(** ** Stores as queues *)

Section KeepLast.

Context {A : Type}.

Lemma keep_last_short n (l : list A) :
  (List.length l <= n)%nat -> keep_last n l = l.
Proof.
  intros H. unfold keep_last.
  replace (List.length l - n)%nat with 0%nat by lia. reflexivity.
Qed.

Lemma keep_last_length n (l : list A) :
  List.length (keep_last n l) = Nat.min n (List.length l).
Proof. unfold keep_last. rewrite length_skipn. lia. Qed.

Lemma keep_last_app n (x y : list A) :
  keep_last n (keep_last n x ++ y) = keep_last n (x ++ y).
Proof.
  destruct (Nat.le_gt_cases (List.length x) n) as [Hle|Hgt].
  - now rewrite (keep_last_short n x Hle).
  - unfold keep_last at 1 3. rewrite !length_app, keep_last_length.
    unfold keep_last.
    set (k := (List.length x - n)%nat).
    replace (Nat.min n (List.length x) + List.length y - n)%nat
      with (List.length y) by lia.
    replace (List.length x + List.length y - n)%nat
      with (List.length y + k)%nat by (unfold k; lia).
    rewrite <- skipn_skipn, (skipn_app k x y).
    replace (k - List.length x)%nat with 0%nat by (unfold k; lia).
    reflexivity.
Qed.

Lemma keep_last_push n (b : list A) (a : A) :
  (0 < n)%nat ->
  (List.length b <= n)%nat ->
  ((if (n <=? List.length b)%nat then skipn 1 b else b) ++ [a])%list
  = keep_last n (b ++ [a]).
Proof.
  intros Hn Hle. unfold keep_last. rewrite length_app. cbn [List.length].
  destruct (Nat.leb_spec n (List.length b)) as [Hfull|Hroom].
  - replace (List.length b + 1 - n)%nat with 1%nat by lia.
    destruct b as [|b0 b]; [simpl in Hfull; lia | reflexivity].
  - replace (List.length b + 1 - n)%nat with 0%nat by lia. reflexivity.
Qed.

Lemma keep_last_sorted (R : A -> A -> Prop) {B : Type} (f : B -> A) n
      (x y : list B) :
  StronglySorted R (map f (x ++ y)) ->
  StronglySorted R (map f (keep_last n x ++ y)).
Proof.
  intros H. unfold keep_last.
  set (k := (List.length x - n)%nat).
  replace (skipn k x ++ y)%list with (skipn k (x ++ y)).
  - rewrite <- skipn_map. revert H. generalize (map f (x ++ y)).
    clear. induction k as [|k IH]; intros l H; [exact H|].
    destruct l as [|a l]; [constructor|].
    apply IH. now inversion H.
  - rewrite skipn_app.
    replace (k - List.length x)%nat with 0%nat by (unfold k; lia).
    reflexivity.
Qed.

End KeepLast.

Lemma strongly_sorted_prefix {A : Type} (R : A -> A -> Prop) (l m : list A) :
  StronglySorted R (l ++ m) -> StronglySorted R l.
Proof.
  induction l as [|x l IH]; cbn [app]; intros H; [constructor|].
  inversion H as [|? ? Hl Hx]; subst.
  constructor; [now apply IH|].
  now apply Forall_app in Hx.
Qed.

Lemma arrivals_body {A : Type} ids n (ls : list A) :
  map body (arrivals ids n ls) = ls.
Proof.
  revert n. induction ls as [|a ls IH]; intros n; cbn [arrivals map body];
    [reflexivity | now rewrite IH].
Qed.

Lemma arrivals_ids {A : Type} ids n (ls : list A) :
  map _id (arrivals ids n ls) = map ids (seq n (List.length ls)).
Proof.
  revert n.
  induction ls as [|a ls IH]; intros n;
    cbn [arrivals map _id List.length seq]; [reflexivity | now rewrite IH].
Qed.

Section Queue.

Context {A : Type}.
Variable key : document A -> Z.
Variable cap : Z.
Hypothesis cap_positive : 0 < cap.
Variable store : DB -> collection A.
Variable req : A -> insert_request.
Hypothesis ins_effect :
  forall db a,
    answered_ok db (req a) = true ->
    store (post db (req a))
    = capped_insert key cap 1 a (next_oid db) (store db).
Hypothesis store_wf :
  forall db, wf_db db = true -> NoDup (map _id (store db)).

Lemma sort_increasing (c : collection A) :
  StronglySorted Z.lt (map key c) -> sort key c = c.
Proof.
  induction c as [|x c IH]; cbn [map sort fold_right]; intros H;
    [reflexivity|].
  inversion H as [|? ? Hc Hx]; subst.
  fold (sort key c). rewrite (IH Hc).
  destruct c as [|y c]; [reflexivity|].
  cbn [map] in Hx. inversion Hx as [|? ? Hxy _]; subst.
  cbn [sort_insert].
  destruct (Z.leb_spec (key x) (key y)); [reflexivity|lia].
Qed.

Lemma evict_head (c : collection A) :
  NoDup (map _id c) ->
  StronglySorted Z.lt (map key c) ->
  evict key cap 1 c
  = if (Z.to_nat cap <=? List.length c)%nat then skipn 1 c else c.
Proof.
  intros Hnd Hsorted. unfold evict, count_documents.
  destruct (Z.geb_spec (Z.of_nat (List.length c)) cap) as [Hfull|Hroom];
    destruct (Nat.leb_spec (Z.to_nat cap) (List.length c)); try lia;
    [|reflexivity].
  rewrite (sort_increasing _ Hsorted).
  destruct c as [|x c]; [simpl in Hfull; lia|].
  change (firstn (Z.to_nat 1) (x :: c)) with [x].
  rewrite delete_many_fst.
  exact (delete_prefix [x] c Hnd).
Qed.

Lemma ins_pushes db a :
  wf_db db = true ->
  answered_ok db (req a) = true ->
  count_documents (store db) <= cap ->
  StronglySorted Z.lt (map key (store db)) ->
  store (post db (req a))
  = keep_last (Z.to_nat cap)
      (store db ++ [{| _id := next_oid db; body := a |}]).
Proof.
  intros Hwf Hok Hcap Hsorted.
  rewrite (ins_effect db a Hok). unfold capped_insert.
  rewrite (evict_head _ (store_wf db Hwf) Hsorted).
  apply keep_last_push; [lia | unfold count_documents in Hcap; lia].
Qed.

Lemma ins_all_queue (ls : list A) (db : DB) :
  wf_db db = true ->
  accepted (map req ls) db = true ->
  count_documents (store db) <= cap ->
  StronglySorted Z.lt
    (map key (store db ++ arrivals (object_ids db) (drawn db) ls)) ->
  store (post_all (map req ls) db)
  = keep_last (Z.to_nat cap)
      (store db ++ arrivals (object_ids db) (drawn db) ls).
Proof.
  unfold post_all. revert db.
  induction ls as [|a ls IH]; cbn [map fold_left arrivals];
    intros db Hwf Hacc Hcap Hsorted.
  - rewrite app_nil_r, keep_last_short; [reflexivity|].
    unfold count_documents in Hcap. lia.
  - cbn [accepted] in Hacc. apply andb_prop in Hacc as [Hok Hacc].
    destruct (post_driver db (req a)) as (Hids & Hdrawn & _).
    fold (next_oid db) in *.
    change ({| _id := next_oid db; body := a |}
              :: arrivals (object_ids db) (S (drawn db)) ls)
      with ([{| _id := next_oid db; body := a |}]
              ++ arrivals (object_ids db) (S (drawn db)) ls)%list
      in Hsorted |- *.
    rewrite app_assoc in Hsorted |- *.
    assert (Hstep : store (post db (req a))
                    = keep_last (Z.to_nat cap)
                        (store db ++ [{| _id := next_oid db; body := a |}])).
    { apply ins_pushes; [exact Hwf | exact Hok | exact Hcap |].
      rewrite map_app in Hsorted.
      apply strongly_sorted_prefix in Hsorted.
      rewrite map_app in Hsorted.
      exact (strongly_sorted_prefix _ _ _ Hsorted). }
    rewrite IH.
    + rewrite Hids, Hdrawn, Hstep. apply keep_last_app.
    + now apply wf_post.
    + exact Hacc.
    + rewrite Hstep. unfold count_documents.
      rewrite keep_last_length. lia.
    + rewrite Hids, Hdrawn, Hstep. now apply keep_last_sorted.
Qed.

End Queue.

Lemma fits_capacity {A : Type} (c : collection A) (cap : Z) :
  count_documents c <= cap ->
  (List.length (map body c) <= Z.to_nat cap)%nat.
Proof. unfold count_documents. rewrite length_map. lia. Qed.

Lemma keep_last_map {A B : Type} (f : A -> B) n (l : list A) :
  map f (keep_last n l) = keep_last n (map f l).
Proof. unfold keep_last. now rewrite length_map, skipn_map. Qed.

(** X16.  The log store is a queue of the last fifty documents as long as
    the driver's object ids grow: in a database with distinct object ids
    that holds at most fifty logs, after a run of log inserts that were
    all answered with status 200, and provided the object ids (those
    resident, in store order, then those drawn for the inserts) are
    strictly increasing, the store holds, in order of arrival, the last
    fifty of the documents it had followed by the inserted ones. *)
Theorem log_store_is_a_queue (ls : list Log) (db : DB) :
  wf_db db = true ->
  accepted (map PostLog ls) db = true ->
  count_documents (log_collection db) <= max_size_log_collection ->
  StronglySorted N.lt
    (map _id (log_collection db ++ arrivals (object_ids db) (drawn db) ls)) ->
  log_collection (post_all (map PostLog ls) db)
  = keep_last (Z.to_nat max_size_log_collection)
      (log_collection db ++ arrivals (object_ids db) (drawn db) ls).
Proof.
  intros Hwf Hacc Hcap Hsorted.
  apply (ins_all_queue (fun entry => Z.of_N (_id entry))
           max_size_log_collection eq_refl log_collection PostLog);
    try assumption.
  - intros d a Hok. cbn [post answered_ok] in *.
    apply is_ok_Ok in Hok as [r Hok].
    rewrite create_log_effect. cbn [log_collection].
    now rewrite (inserted_ok _ _ _ Hok).
  - intros d H. now apply wf_db_parts in H.
  - revert Hsorted.
    generalize (log_collection db
                ++ arrivals (object_ids db) (drawn db) ls)%list.
    intros l. induction l as [|x l IH]; cbn [map]; intros H; [constructor|].
    inversion H as [|? ? Hl Hx]; subst.
    constructor; [now apply IH|].
    apply (proj2 (Forall_map (fun entry => Z.of_N (_id entry)) _ l)).
    apply (proj1 (Forall_map _id _ l)) in Hx.
    revert Hx. apply Forall_impl. intros y Hy. lia.
Qed.

(** Fifty-two logs into the empty database, whose driver counts up: the
    first two are gone, the other fifty are there in order. *)
Lemma log_store_is_a_queue_witness :
  let ls := map (fun i => sample_log (str (Z.of_nat i))) (seq 0 52) in
  map body (log_collection (post_all (map PostLog ls) empty_db))
  = skipn 2 ls.
Proof.
  intros ls.
  rewrite (log_store_is_a_queue ls empty_db wf_empty_db).
  - reflexivity.
  - vm_compute. reflexivity.
  - discriminate.
  - vm_compute. repeat first [apply SSorted_nil | apply SSorted_cons
                              | apply Forall_nil | apply Forall_cons
                              | reflexivity].
Defined.

Lemma time_stamped_queue {A : Type} (stamp : A -> Z) (cap : Z)
      (store : DB -> collection A) (req : A -> insert_request) :
  0 < cap ->
  (forall db a,
      answered_ok db (req a) = true ->
      store (post db (req a))
      = capped_insert (fun entry => stamp (body entry)) cap 1 a
          (next_oid db) (store db)) ->
  (forall db, wf_db db = true -> NoDup (map _id (store db))) ->
  forall (ls : list A) (db : DB),
    wf_db db = true ->
    accepted (map req ls) db = true ->
    count_documents (store db) <= cap ->
    StronglySorted Z.lt (map stamp (map body (store db) ++ ls)) ->
    map body (store (post_all (map req ls) db))
    = keep_last (Z.to_nat cap) (map body (store db) ++ ls).
Proof.
  intros Hcap Heff Hstore ls db Hwf Hacc Hfits Hsorted.
  rewrite (ins_all_queue (fun entry => stamp (body entry)) cap Hcap store req
             Heff Hstore ls db Hwf Hacc Hfits).
  - now rewrite keep_last_map, map_app, arrivals_body.
  - rewrite <- (arrivals_body (object_ids db) (drawn db) ls) in Hsorted.
    now rewrite <- map_app, map_map in Hsorted.
Qed.

(** X19.  When records arrive with strictly increasing time stamps (those
    resident, in store order, then those inserted) and every insert is
    answered with status 200, each time-stamped store is a queue: in a
    database with distinct object ids in which the store holds at most
    its maximum, after the inserts it holds, in order of arrival, the
    last [max] of the records it had followed by the inserted ones. *)
Theorem time_stamped_stores_are_queues (db : DB) (Hwf : wf_db db = true) :
  (forall snapshots,
      accepted (map PostSnapshot snapshots) db = true ->
      count_documents (snapshot_collection db)
      <= max_size_snapshots_collection ->
      StronglySorted Z.lt
        (map Snapshot_createdAt
           (map body (snapshot_collection db) ++ snapshots)) ->
      map body (snapshot_collection (post_all (map PostSnapshot snapshots) db))
      = keep_last (Z.to_nat max_size_snapshots_collection)
          (map body (snapshot_collection db) ++ snapshots))
  /\ (forall steps,
         accepted (map PostStep steps) db = true ->
         count_documents (step_collection db) <= max_size_steps_collection ->
         StronglySorted Z.lt
           (map Step_createdAt (map body (step_collection db) ++ steps)) ->
         map body (step_collection (post_all (map PostStep steps) db))
         = keep_last (Z.to_nat max_size_steps_collection)
             (map body (step_collection db) ++ steps))
  /\ (forall transactions,
         accepted (map PostTransaction transactions) db = true ->
         count_documents (transaction_collection db)
         <= max_size_transactions_collection ->
         StronglySorted Z.lt
           (map start (map body (transaction_collection db) ++ transactions)) ->
         map body
           (transaction_collection
              (post_all (map PostTransaction transactions) db))
         = keep_last (Z.to_nat max_size_transactions_collection)
             (map body (transaction_collection db) ++ transactions)).
Proof.
  split; [|split].
  - intros snapshots Hacc Hcap Hsorted.
    apply (time_stamped_queue Snapshot_createdAt max_size_snapshots_collection
             snapshot_collection PostSnapshot);
      try assumption; [reflexivity | |].
    + intros d a Hok. cbn [post answered_ok] in *.
      apply is_ok_Ok in Hok as [r Hok].
      rewrite create_snapshot_effect. cbn [snapshot_collection].
      now rewrite (inserted_ok _ _ _ Hok).
    + intros d H. now apply wf_db_parts in H.
  - intros steps Hacc Hcap Hsorted.
    apply (time_stamped_queue Step_createdAt max_size_steps_collection
             step_collection PostStep);
      try assumption; [reflexivity | |].
    + intros d a Hok. cbn [post answered_ok] in *.
      apply is_ok_Ok in Hok as [r Hok].
      rewrite create_step_effect. cbn [step_collection].
      now rewrite (inserted_ok _ _ _ Hok).
    + intros d H. now apply wf_db_parts in H.
  - intros transactions Hacc Hcap Hsorted.
    apply (time_stamped_queue start max_size_transactions_collection
             transaction_collection PostTransaction);
      try assumption; [reflexivity | |].
    + intros d a Hok. cbn [post answered_ok] in *.
      apply is_ok_Ok in Hok as [r Hok].
      rewrite create_transaction_effect. cbn [transaction_collection].
      now rewrite (inserted_ok _ _ _ Hok).
    + intros d H. now apply wf_db_parts in H.
Qed.

(** T1, T2, T3 are resident; T4 and two later transactions arrive: the
    last three are kept. *)
Lemma time_stamped_stores_are_queues_witness :
  let T5 := sample_transaction "T5" 5 in
  let T6 := sample_transaction "T6" 6 in
  wf_db three_transactions_db = true
  /\ map body
       (transaction_collection
          (post_all (map PostTransaction [T4; T5; T6]) three_transactions_db))
     = [T4; T5; T6].
Proof.
  intros T5 T6. split; [reflexivity|].
  rewrite (proj2 (proj2 (time_stamped_stores_are_queues
                           three_transactions_db eq_refl))
             [T4; T5; T6]).
  - reflexivity.
  - vm_compute. reflexivity.
  - discriminate.
  - vm_compute. repeat first [reflexivity | constructor].
Defined.

(** ** Inserts the driver refuses *)

Lemma insert_one_refused {A : Type} (to_dict : A -> dict)
      (refuses : dict -> option exn) doc oid (c : collection A) e :
  bson_error (VDict (to_dict doc)) = Some e ->
  insert_one to_dict refuses doc oid c = inl e.
Proof. intros H. unfold insert_one. now rewrite H. Qed.

Ltac handler_refused H :=
  match goal with
  | |- context [count_documents ?c >=? ?cap] =>
      destruct (count_documents c >=? cap);
      [rewrite limit_positive by (split; reflexivity)|];
      cbn [fresh_oid fst snd snapshot_collection step_collection
           transaction_collection log_collection object_ids drawn refusal
           with_snapshots with_steps with_transactions with_logs next_oid];
      rewrite (insert_one_refused _ _ _ _ _ _ H); reflexivity
  end.

Lemma create_snapshot_refused snapshot db e :
  bson_error (VDict (Snapshot_dict snapshot)) = Some e ->
  snd (create_snapshot snapshot db) = Raised e.
Proof. intros H. unfold create_snapshot. handler_refused H. Qed.

Lemma create_step_refused step db e :
  bson_error (VDict (Step_dict step)) = Some e ->
  snd (create_step step db) = Raised e.
Proof. intros H. unfold create_step. handler_refused H. Qed.

Lemma create_transaction_refused transaction db e :
  bson_error (VDict (Transaction_dict transaction)) = Some e ->
  snd (create_transaction transaction db) = Raised e.
Proof. intros H. unfold create_transaction. handler_refused H. Qed.

Lemma evict_incl {A : Type} (key : document A -> Z) (cap chunk : Z)
      (c : collection A) :
  incl (evict key cap chunk c) c.
Proof. intros d. apply evict_subset. Qed.

(** X20.  A snapshot, step or transaction whose time stamp does not fit
    in 64 bits is refused by the driver with [OverflowError], but only
    after the handler has made room for it: nothing is added, and a store
    that was full is left one document short. *)
Theorem out_of_range_time_stamp_costs_a_document
        (db : DB) (Hwf : wf_db db = true) :
  (forall snapshot,
      int64 (Snapshot_createdAt snapshot) = false ->
      snd (create_snapshot snapshot db) = Raised OverflowError
      /\ incl (snapshot_collection (fst (create_snapshot snapshot db)))
           (snapshot_collection db)
      /\ count_documents (snapshot_collection (fst (create_snapshot snapshot db)))
         = if count_documents (snapshot_collection db)
              >=? max_size_snapshots_collection
           then count_documents (snapshot_collection db) - 1
           else count_documents (snapshot_collection db))
  /\ (forall step,
         int64 (Step_createdAt step) = false ->
         snd (create_step step db) = Raised OverflowError
         /\ incl (step_collection (fst (create_step step db)))
              (step_collection db)
         /\ count_documents (step_collection (fst (create_step step db)))
            = if count_documents (step_collection db)
                 >=? max_size_steps_collection
              then count_documents (step_collection db) - 1
              else count_documents (step_collection db))
  /\ (forall transaction,
         int64 (start transaction) = false ->
         snd (create_transaction transaction db) = Raised OverflowError
         /\ incl (transaction_collection
                    (fst (create_transaction transaction db)))
              (transaction_collection db)
         /\ count_documents
              (transaction_collection (fst (create_transaction transaction db)))
            = if count_documents (transaction_collection db)
                 >=? max_size_transactions_collection
              then count_documents (transaction_collection db) - 1
              else count_documents (transaction_collection db)).
Proof.
  apply wf_db_parts in Hwf as (W1 & W2 & W3 & _).
  split; [|split].
  - intros snapshot Hbig.
    assert (Hans : snd (create_snapshot snapshot db) = Raised OverflowError).
    { apply create_snapshot_refused. cbn -[int64]. now rewrite Hbig. }
    split; [exact Hans|].
    rewrite create_snapshot_effect. cbn [snapshot_collection].
    rewrite (inserted_raised _ _ _ Hans), app_nil_r.
    split; [apply evict_incl | now apply evict_count].
  - intros step Hbig.
    assert (Hans : snd (create_step step db) = Raised OverflowError).
    { apply create_step_refused. cbn -[int64]. now rewrite Hbig. }
    split; [exact Hans|].
    rewrite create_step_effect. cbn [step_collection].
    rewrite (inserted_raised _ _ _ Hans), app_nil_r.
    split; [apply evict_incl | now apply evict_count].
  - intros transaction Hbig.
    assert (Hans : snd (create_transaction transaction db)
                   = Raised OverflowError).
    { apply create_transaction_refused. cbn -[int64]. now rewrite Hbig. }
    split; [exact Hans|].
    rewrite create_transaction_effect. cbn [transaction_collection].
    rewrite (inserted_raised _ _ _ Hans), app_nil_r.
    split; [apply evict_incl | now apply evict_count].
Qed.

(** A transaction starting at 2^63 is refused by the full store of T1,
    T2, T3, and T1 is gone all the same. *)
Lemma out_of_range_time_stamp_costs_a_document_witness :
  snd (create_transaction T_late three_transactions_db) = Raised OverflowError
  /\ count_documents
       (transaction_collection
          (fst (create_transaction T_late three_transactions_db))) = 2
  /\ map body
       (transaction_collection
          (fst (create_transaction T_late three_transactions_db)))
     = [T2; T3].
Proof.
  destruct (proj2 (proj2 (out_of_range_time_stamp_costs_a_document
                            three_transactions_db eq_refl))
              T_late eq_refl) as (Hans & _ & Hcount).
  split; [exact Hans|]. split; [exact Hcount|]. reflexivity.
Defined.
